(** * Dispatch state manager of the SOS backend (server.js)

    A shallow embedding of the PostgreSQL request handlers of
    [server.js]: the two tables the dispatch workflow touches, the
    store with its transactions and its failures, the handlers as
    programs of a small state-and-exception monad, and the properties
    of the assignment workflow and of the rescuer status transitions.

    Conventions of the model.
    - A table is a finite map from its [id SERIAL PRIMARY KEY] to the
      remaining columns of the row.
    - Request fields are present and have the type of the column they
      are compared with or written to (ids are integers, texts are
      strings).  Nullable columns are options.  A value the store
      refuses, such as an id outside the range of INTEGER, makes the
      statement fail like any other store failure.
    - [REAL] and [TIMESTAMP] values are opaque to the server: it only
      copies them, so they are abstract types here, and a request
      coordinate is taken in the representation of its column.
    - [bcrypt.compare] is an unspecified boolean function.
    - Any statement sent to the store may fail; which ones do is given
      by a fault schedule the properties quantify over.  A statement
      that fails has no effect on the store (PostgreSQL statements are
      atomic) and raises the error in the handler.
    - The response recorded for a run is the one the handler's own
      code sends.  When an error leaves a handler (its promise
      rejects), what the client then receives is decided by the
      framework, which is not part of [server.js]: the model says that
      the handler sent nothing and how its promise settled, no more.
    - Each handler is run on its own; the interleaving of concurrent
      requests is outside the model.  What another connection could
      read during a run is kept as the list of committed states.

    The development covers the PostgreSQL routes (the first server of
    [server.js]); the older SQLite routes kept after them are not
    modelled. *)

From Stdlib Require Import ZArith String.
From stdpp Require Import base option list gmap strings sorting.

Open Scope Z_scope.
Open Scope string_scope.

Section Server.

Context {real timestamp : Type}.

(** bcrypt.compare(password, hash) *)
Context (bcrypt_compare : string → string → bool).

(** ** Tables (CREATE TABLE ... in [initDb]) *)

Record Ticket := {
  ticket_number : option string;
  service_type : option string;
  user_name : option string;
  t_phone : option string;
  latitude : option real;
  longitude : option real;
  incident_details : option string;
  rescuer_id : option Z;
  rescuer_name : option string;
  t_status : string;               (* TEXT DEFAULT 'ACTIVE' *)
  created_at : timestamp
}.

Record Rescuer := {
  name : string;                   (* TEXT NOT NULL *)
  badge_id : string;               (* TEXT UNIQUE NOT NULL *)
  callsign : option string;
  r_phone : option string;
  password : string;               (* the bcrypt hash, TEXT NOT NULL *)
  profile_image : option (list Byte.byte);   (* BYTEA *)
  r_status : string;               (* TEXT DEFAULT 'available' *)
  last_lat : option real;
  last_lon : option real
}.

Record DB := {
  tickets : gmap Z Ticket;
  rescuers : gmap Z Rescuer
}.

(** ** The SQL statements of the handlers, as functions on the tables *)

(** UPDATE tickets SET rescuer_id = $1, rescuer_name = $2,
    status = 'DISPATCHED' WHERE id = $3 *)
Definition dispatched (rescuerId : Z) (rescuerName : string) (t : Ticket) : Ticket :=
  {| ticket_number := ticket_number t; service_type := service_type t;
     user_name := user_name t; t_phone := t_phone t;
     latitude := latitude t; longitude := longitude t;
     incident_details := incident_details t;
     rescuer_id := Some rescuerId; rescuer_name := Some rescuerName;
     t_status := "DISPATCHED"; created_at := created_at t |}.

Definition updateTicket (rescuerId : Z) (rescuerName : string) (ticketId : Z)
    (db : DB) : DB :=
  {| tickets := alter (dispatched rescuerId rescuerName) ticketId (tickets db);
     rescuers := rescuers db |}.

(** UPDATE rescuers SET status = <s> WHERE id = $1 *)
Definition with_status (s : string) (r : Rescuer) : Rescuer :=
  {| name := name r; badge_id := badge_id r; callsign := callsign r;
     r_phone := r_phone r; password := password r;
     profile_image := profile_image r; r_status := s;
     last_lat := last_lat r; last_lon := last_lon r |}.

Definition updateRescuerStatus (s : string) (id : Z) (db : DB) : DB :=
  {| tickets := tickets db;
     rescuers := alter (with_status s) id (rescuers db) |}.

(** UPDATE tickets SET status = 'SOLVED' WHERE id = $1 *)
Definition solved (t : Ticket) : Ticket :=
  {| ticket_number := ticket_number t; service_type := service_type t;
     user_name := user_name t; t_phone := t_phone t;
     latitude := latitude t; longitude := longitude t;
     incident_details := incident_details t;
     rescuer_id := rescuer_id t; rescuer_name := rescuer_name t;
     t_status := "SOLVED"; created_at := created_at t |}.

Definition updateSolved (id : Z) (db : DB) : DB :=
  {| tickets := alter solved id (tickets db); rescuers := rescuers db |}.

(** SELECT id FROM tickets WHERE rescuer_id = $1 AND status = 'DISPATCHED' *)
Definition on_mission_for (rescuerId : Z) (row : Z * Ticket) : Prop :=
  rescuer_id row.2 = Some rescuerId ∧ t_status row.2 = "DISPATCHED".

#[global] Instance on_mission_for_dec rescuerId row :
  Decision (on_mission_for rescuerId row).
Proof. unfold on_mission_for. apply _. Defined.

Definition checkMission (rescuerId : Z) (db : DB) : list Z :=
  (map_to_list (filter (on_mission_for rescuerId) (tickets db))).*1.

(** UPDATE rescuers SET last_lat = $1, last_lon = $2, status = $3 WHERE id = $4 *)
Definition located (lat lon : real) (s : string) (r : Rescuer) : Rescuer :=
  {| name := name r; badge_id := badge_id r; callsign := callsign r;
     r_phone := r_phone r; password := password r;
     profile_image := profile_image r; r_status := s;
     last_lat := Some lat; last_lon := Some lon |}.

Definition updateLocation (lat lon : real) (s : string) (id : Z) (db : DB) : DB :=
  {| tickets := tickets db;
     rescuers := alter (located lat lon s) id (rescuers db) |}.

(** SELECT * FROM rescuers WHERE badge_id = $1 *)
Definition has_badge (b : string) (row : Z * Rescuer) : Prop := badge_id row.2 = b.

#[global] Instance has_badge_dec b row : Decision (has_badge b row).
Proof. unfold has_badge. apply _. Defined.

Definition selectByBadge (b : string) (db : DB) : list (Z * Rescuer) :=
  map_to_list (filter (has_badge b) (rescuers db)).

(** UPDATE rescuers SET name=$1, badge_id=$2, callsign=$3, phone=$4,
    profile_image=$5 WHERE id=$6 *)
Definition edited_with_image (n b : string) (c p : option string)
    (img : list Byte.byte) (r : Rescuer) : Rescuer :=
  {| name := n; badge_id := b; callsign := c; r_phone := p;
     password := password r; profile_image := Some img;
     r_status := r_status r; last_lat := last_lat r; last_lon := last_lon r |}.

Definition updateInfoImage (n b : string) (c p : option string)
    (img : list Byte.byte) (id : Z) (db : DB) : DB :=
  {| tickets := tickets db;
     rescuers := alter (edited_with_image n b c p img) id (rescuers db) |}.

(** UPDATE rescuers SET name=$1, badge_id=$2, callsign=$3, phone=$4 WHERE id=$5 *)
Definition edited (n b : string) (c p : option string) (r : Rescuer) : Rescuer :=
  {| name := n; badge_id := b; callsign := c; r_phone := p;
     password := password r; profile_image := profile_image r;
     r_status := r_status r; last_lat := last_lat r; last_lon := last_lon r |}.

Definition updateInfo (n b : string) (c p : option string) (id : Z) (db : DB) : DB :=
  {| tickets := tickets db;
     rescuers := alter (edited n b c p) id (rescuers db) |}.

(** [badge_id TEXT UNIQUE]: the two statements above are refused when
    they would give the row [id] a badge that another row holds. *)
Definition other_with_badge (b : string) (id : Z) (row : Z * Rescuer) : Prop :=
  row.1 ≠ id ∧ badge_id row.2 = b.

#[global] Instance other_with_badge_dec b id row :
  Decision (other_with_badge b id row).
Proof. unfold other_with_badge. apply _. Defined.

Definition badge_conflict (b : string) (id : Z) (db : DB) : bool :=
  match rescuers db !! id with
  | None => false
  | Some _ =>
      match map_to_list (filter (other_with_badge b id) (rescuers db)) with
      | [] => false
      | _ :: _ => true
      end
  end.

(** SELECT profile_image FROM rescuers WHERE id = $1 *)
Definition selectImage (id : Z) (db : DB) : list (option (list Byte.byte)) :=
  match rescuers db !! id with
  | Some r => [profile_image r]
  | None => []
  end.

(** ** The store: committed state, and the transaction of the leased client *)

Record Store := {
  committed : DB;            (* what every connection reads *)
  txn : option DB            (* working copy of the open transaction *)
}.

Definition view (s : Store) : DB := default (committed s) (txn s).

Definition begin (s : Store) : Store :=
  match txn s with
  | None => {| committed := committed s; txn := Some (committed s) |}
  | Some _ => s
  end.

Definition commit (s : Store) : Store :=
  match txn s with
  | Some d => {| committed := d; txn := None |}
  | None => s
  end.

Definition rollback (s : Store) : Store :=
  {| committed := committed s; txn := None |}.

(** A write on the leased client goes to the working copy while a
    transaction is open, and to the committed state otherwise. *)
Definition write (u : DB → DB) (s : Store) : Store :=
  match txn s with
  | Some d => {| committed := committed s; txn := Some (u d) |}
  | None => {| committed := u (committed s); txn := None |}
  end.

(** A write through [pool.query] runs on a connection of its own and
    commits at once. *)
Definition autocommit (u : DB → DB) (s : Store) : Store :=
  {| committed := u (committed s); txn := txn s |}.

(** ** Responses *)

Inductive Value :=
  | VBool (b : bool)
  | VStr (s : string).

Inductive Body :=
  | Json (fields : list (string * Value))   (* res.json({...}) *)
  | JsonRescuer (id : Z) (row : Rescuer)    (* res.json(rescuer), a row of SELECT * *)
  | Jpeg (bytes : list Byte.byte)           (* res.contentType('image/jpeg'); res.send(buffer) *)
  | Text (s : string).                      (* res.send("...") *)

Record Response := {
  code : nat;
  body : Body
}.

(** ** The world a handler runs in *)

Record Error := { message : string }.

Inductive Stmt := BEGIN | COMMIT | ROLLBACK | SELECT | UPDATE.

#[global] Instance Stmt_eq_dec : EqDecision Stmt.
Proof. solve_decision. Defined.

Record World := {
  faults : nat → option Error;   (* the n-th statement sent fails with this error *)
  connect_fault : option Error;  (* pool.connect() fails with this error *)
  store : Store;
  trace : list (Stmt * DB);      (* statements sent, each with the committed
                                    state right after it, oldest first *)
  leased : nat;                  (* clients checked out of the pool *)
  sent : option Response         (* the response, once sent *)
}.

Definition init (f : nat → option Error) (c : option Error) (db : DB) : World :=
  {| faults := f; connect_fault := c;
     store := {| committed := db; txn := None |};
     trace := []; leased := 0; sent := None |}.

Definition no_faults : nat → option Error := λ _, None.

(** The committed states an observer on another connection can have read. *)
Definition observed (w : World) : list DB := (trace w).*2.

Definition writes (w : World) : nat :=
  length (filter (λ e : Stmt * DB, e.1 = UPDATE) (trace w)).

(** ** The monad of handler code: state and exceptions *)

Inductive Result (A : Type) :=
  | Ok (a : A)
  | Throw (e : Error).
Arguments Ok {A} a.
Arguments Throw {A} e.

Definition M (A : Type) : Type := World → Result A * World.

#[global] Instance M_ret : MRet M := λ A a w, (Ok a, w).

#[global] Instance M_bind : MBind M := λ A B k m w,
  match m w with
  | (Ok a, w') => k a w'
  | (Throw e, w') => (Throw e, w')
  end.

(** try { m } catch (err) { h err } *)
Definition try_catch {A} (m : M A) (h : Error → M A) : M A := λ w,
  match m w with
  | (Ok a, w') => (Ok a, w')
  | (Throw e, w') => h e w'
  end.

(** try { m } finally { fin } *)
Definition finally {A} (m : M A) (fin : M unit) : M A := λ w,
  match m w with
  | (r, w') =>
      match fin w' with
      | (Ok _, w'') => (r, w'')
      | (Throw e, w'') => (Throw e, w'')
      end
  end.

(** One statement sent to the store: [check] is the constraint it may
    violate, [eff] its effect on the store and [res] the rows it
    returns, read from [src].  The statement is recorded in the trace
    whether it fails or not. *)
Definition record (k : Stmt) (s' : Store) (w : World) : World :=
  {| faults := faults w; connect_fault := connect_fault w;
     store := s';
     trace := trace w ++ [(k, committed s')];
     leased := leased w; sent := sent w |}.

Definition statement {A} (k : Stmt) (check : DB → option Error)
    (eff : Store → Store) (src : Store → DB) (res : DB → A) : M A := λ w,
  match faults w (length (trace w)) with
  | Some e => (Throw e, record k (store w) w)
  | None =>
      match check (src (store w)) with
      | Some e => (Throw e, record k (store w) w)
      | None => (Ok (res (src (store w))), record k (eff (store w)) w)
      end
  end.

Definition unchecked : DB → option Error := λ _, None.

(** The check of the statements that write [badge_id]. *)
Definition unique_violation : Error :=
  {| message := "duplicate key value violates unique constraint" |}.

Definition badge_free (b : string) (id : Z) (db : DB) : option Error :=
  if badge_conflict b id db then Some unique_violation else None.

(** pool.connect() and client.release() *)
Definition pool_connect : M unit := λ w,
  match connect_fault w with
  | Some e => (Throw e, w)
  | None =>
      (Ok (), {| faults := faults w; connect_fault := connect_fault w;
                 store := store w; trace := trace w;
                 leased := S (leased w); sent := sent w |})
  end.

Definition client_release : M unit := λ w,
  (Ok (), {| faults := faults w; connect_fault := connect_fault w;
             store := store w; trace := trace w;
             leased := pred (leased w); sent := sent w |}).

(** client.query(...) on the leased client *)
Definition client_begin : M unit := statement BEGIN unchecked begin view (λ _, ()).
Definition client_commit : M unit := statement COMMIT unchecked commit view (λ _, ()).
Definition client_rollback : M unit := statement ROLLBACK unchecked rollback view (λ _, ()).
Definition client_update (u : DB → DB) : M unit :=
  statement UPDATE unchecked (write u) view (λ _, ()).

(** pool.query(...) *)
Definition pool_update (check : DB → option Error) (u : DB → DB) : M unit :=
  statement UPDATE check (autocommit u) committed (λ _, ()).
Definition pool_select {A} (q : DB → A) : M A :=
  statement SELECT unchecked id committed q.

(** res.status(c).json(b) / res.json(b) / res.send(b); a response
    already sent is not replaced (no handler sends twice). *)
Definition respond (c : nat) (b : Body) : M unit := λ w,
  (Ok (), {| faults := faults w; connect_fault := connect_fault w;
             store := store w; trace := trace w; leased := leased w;
             sent := match sent w with
                     | None => Some {| code := c; body := b |}
                     | Some r => Some r
                     end |}).

(** The world a handler leaves behind; [sent] is what the handler's
    own code has sent by then. *)
Definition run (h : M unit) (w : World) : World := (h w).2.

(** ** The handlers *)

(** POST /api/ticket/assign *)
Definition AssignRescuer (ticketId rescuerId : Z) (rescuerName : string) : M unit :=
  pool_connect ;;
  finally
    (try_catch
       (client_begin ;;
        client_update (updateTicket rescuerId rescuerName ticketId) ;;
        client_update (updateRescuerStatus "on-mission" rescuerId) ;;
        client_commit ;;
        respond 200 (Json [("success", VBool true); ("message", VStr "Unit dispatched!")]))
       (λ err,
        client_rollback ;;
        respond 500 (Json [("error", VStr "Update failed")])))
    client_release.

(** POST /api/ticket/solve/:id *)
Definition SolveTicket (id : Z) : M unit :=
  try_catch
    (pool_update unchecked (updateSolved id) ;;
     respond 200 (Json [("message", VStr "Ticket marked as solved")]))
    (λ err, respond 500 (Json [("error", VStr (message err))])).

(** POST /api/rescuer/location *)
Definition ReportLocation (rescuerId : Z) (lat lon : real) : M unit :=
  try_catch
    (missionResult ← pool_select (checkMission rescuerId) ;
     let newStatus :=
       if decide (0 < length missionResult)%nat then "responding" else "available" in
     pool_update unchecked (updateLocation lat lon newStatus rescuerId) ;;
     respond 200 (Json [("success", VBool true); ("status", VStr newStatus)]))
    (λ err, respond 500 (Json [("error", VStr (message err))])).

(** POST /api/rescuer/login *)
Definition Login (badge : string) (pw : string) : M unit :=
  try_catch
    (result ← pool_select (selectByBadge badge) ;
     match head result with
     | None => respond 401 (Json [("error", VStr "Auth Failed")])
     | Some rescuer =>
         if bcrypt_compare pw (password rescuer.2) then
           pool_update unchecked (updateRescuerStatus "available" rescuer.1) ;;
           respond 200 (JsonRescuer rescuer.1 rescuer.2)
         else
           respond 401 (Json [("error", VStr "Auth Failed")])
     end)
    (λ err, respond 500 (Json [("error", VStr "Server Error")])).

(** POST /api/rescuer/logout *)
Definition Logout (rescuerId : Z) : M unit :=
  try_catch
    (pool_update unchecked (updateRescuerStatus "off-duty" rescuerId) ;;
     respond 200 (Json [("success", VBool true)]))
    (λ err, respond 500 (Json [("error", VStr (message err))])).

(** PUT /api/rescuers/:id ; [file] is [req.file], the uploaded image if any *)
Definition UpdateRescuer (id : Z) (n b : string) (c p : option string)
    (file : option (list Byte.byte)) : M unit :=
  let imageBuffer := file in
  try_catch
    (match imageBuffer with
     | Some img => pool_update (badge_free b id) (updateInfoImage n b c p img id)
     | None => pool_update (badge_free b id) (updateInfo n b c p id)
     end ;;
     respond 200 (Json [("message", VStr "Updated successfully")]))
    (λ err, respond 500 (Json [("error", VStr "Update failed")])).

(** GET /api/rescuers/image/:id *)
Definition GetImage (id : Z) : M unit :=
  try_catch
    (result ← pool_select (selectImage id) ;
     match result with
     | [] | None :: _ => respond 404 (Text "Image not found")
     | Some img :: _ => respond 200 (Jpeg img)
     end)
    (λ err, respond 500 (Text "Error fetching image")).

(** ** Responses and table predicates the properties speak of *)

(** The tables after both UPDATEs of the assignment. *)
Definition dispatched_db (ticketId rescuerId : Z) (rescuerName : string) (db : DB) : DB :=
  updateRescuerStatus "on-mission" rescuerId (updateTicket rescuerId rescuerName ticketId db).

Definition unit_dispatched : Response :=
  {| code := 200;
     body := Json [("success", VBool true); ("message", VStr "Unit dispatched!")] |}.

Definition update_failed : Response :=
  {| code := 500; body := Json [("error", VStr "Update failed")] |}.

Definition ticket_solved : Response :=
  {| code := 200; body := Json [("message", VStr "Ticket marked as solved")] |}.

(** The rescuer holds a ticket that is DISPATCHED. *)
Definition has_mission (rescuerId : Z) (db : DB) : Prop :=
  ∃ ticketId t, tickets db !! ticketId = Some t ∧
                rescuer_id t = Some rescuerId ∧ t_status t = "DISPATCHED".

Definition location_saved (s : string) : Response :=
  {| code := 200; body := Json [("success", VBool true); ("status", VStr s)] |}.

(** [badge_id TEXT UNIQUE], as an invariant of the rescuers table. *)
Definition badge_unique (db : DB) : Prop :=
  ∀ i j r1 r2, rescuers db !! i = Some r1 → rescuers db !! j = Some r2 →
               badge_id r1 = badge_id r2 → i = j.

Definition badges (db : DB) : list string :=
  (λ row : Z * Rescuer, badge_id row.2) <$> map_to_list (rescuers db).

(** No rescuer holds the badge. *)
Definition badge_unknown (b : string) (db : DB) : Prop :=
  ∀ j r, rescuers db !! j = Some r → badge_id r ≠ b.

Definition auth_failed : Response :=
  {| code := 401; body := Json [("error", VStr "Auth Failed")] |}.

Definition server_error : Response :=
  {| code := 500; body := Json [("error", VStr "Server Error")] |}.

Definition logged_out : Response :=
  {| code := 200; body := Json [("success", VBool true)] |}.

Definition updated : Response :=
  {| code := 200; body := Json [("message", VStr "Updated successfully")] |}.

(** What GET /api/rescuers/image/:id answers for a row with this image column. *)
Definition image_response (img : option (list Byte.byte)) : Response :=
  match img with
  | Some bytes => {| code := 200; body := Jpeg bytes |}
  | None => {| code := 404; body := Text "Image not found" |}
  end.

End Server.

(** * The single-statement routes

    The other routes of the server send one statement through
    [pool.query] and answer with arrays of rows or with numbers.  Each
    is a function from the tables to its reply and the tables it
    leaves; [fault] is the failure of its statement, if it fails.  The
    id that a SERIAL column draws from its sequence, the salt that
    [bcrypt.hash] draws and the value of CURRENT_TIMESTAMP are
    arguments. *)

Section Routes.

Context {real timestamp : Type}.

(** The order of TIMESTAMP values. *)
Context (earlier : relation timestamp) `{∀ x y, Decision (earlier x y)}.

(** bcrypt.hash(password, 10), as a function of the salt it draws *)
Context (bcrypt_hash : string → string → string).

Implicit Types (db : @DB real timestamp).

(** res.json(a), or res.status(code).json({ error }) *)
Inductive Reply (A : Type) :=
  | Sent (a : A)
  | Failed (code : nat) (error : string).
Arguments Sent {A} a.
Arguments Failed {A} code error.
Arguments Ok {A} a.
Arguments Throw {A} e.

(** await pool.query(sql, params) on a store of type [S] *)
Definition query {S A} (fault : option Error) (check : S → option Error)
    (stmt : S → A * S) (s : S) : Result A * S :=
  match fault with
  | Some e => (Throw e, s)
  | None =>
      match check s with
      | Some e => (Throw e, s)
      | None => let (a, s') := stmt s in (Ok a, s')
      end
  end.

(** *** Rescuers *)

(** INSERT INTO rescuers (name, badge_id, callsign, phone, password,
    profile_image) VALUES ($1, ..., $6) RETURNING id *)
Definition new_rescuer (n b : string) (c p : option string) (hash : string)
    (img : option (list Byte.byte)) : @Rescuer real :=
  {| name := n; badge_id := b; callsign := c; r_phone := p;
     password := hash; profile_image := img;
     r_status := "available"; last_lat := None; last_lon := None |}.

Definition insertRescuer (id : Z) (row : Rescuer) db : Z * DB :=
  (id, {| tickets := tickets db; rescuers := <[id := row]> (rescuers db) |}).

Definition primary_key_violation : Error :=
  {| message := "duplicate key value violates unique constraint" |}.

Definition badge_taken (b : string) db : bool :=
  match selectByBadge b db with
  | [] => false
  | _ :: _ => true
  end.

Definition rescuer_insertable (id : Z) (b : string) db : option Error :=
  match rescuers db !! id with
  | Some _ => Some primary_key_violation
  | None => if badge_taken b db then Some unique_violation else None
  end.

Record Account := {
  account_message : string;
  account_id : Z
}.

(** POST /api/rescuers *)
Definition RegisterRescuer (fault : option Error) (newId : Z) (salt : string)
    (n b : string) (c p : option string) (pw : string)
    (file : option (list Byte.byte)) db : Reply Account * DB :=
  let imageBuffer := file in
  let hashedPassword := bcrypt_hash salt pw in
  match query fault (rescuer_insertable newId b)
          (insertRescuer newId (new_rescuer n b c p hashedPassword imageBuffer)) db with
  | (Ok id, db') =>
      (Sent {| account_message := "Account created successfully"; account_id := id |}, db')
  | (Throw error, db') => (Failed 500 "Badge ID exists or Database Error", db')
  end.

(** SELECT id, name, badge_id, callsign, phone, status FROM rescuers
    WHERE status != 'off-duty' *)
Record Listed := {
  l_id : Z;
  l_name : string;
  l_badge_id : string;
  l_callsign : option string;
  l_phone : option string;
  l_status : string
}.

Definition on_duty (row : Z * @Rescuer real) : Prop := r_status row.2 ≠ "off-duty".

#[global] Instance on_duty_dec row : Decision (on_duty row).
Proof. unfold on_duty. apply _. Defined.

Definition listed (row : Z * @Rescuer real) : Listed :=
  {| l_id := row.1; l_name := name row.2; l_badge_id := badge_id row.2;
     l_callsign := callsign row.2; l_phone := r_phone row.2;
     l_status := r_status row.2 |}.

Definition selectOnDuty db : list Listed :=
  listed <$> map_to_list (filter on_duty (rescuers db)).

(** GET /api/rescuers *)
Definition ListRescuers (fault : option Error) db : Reply (list Listed) * DB :=
  match query fault unchecked (λ db, (selectOnDuty db, db)) db with
  | (Ok rows, db') => (Sent rows, db')
  | (Throw err, db') => (Failed 500 (message err), db')
  end.

(** SELECT id, name, last_lat, last_lon, status, callsign FROM rescuers
    WHERE last_lat IS NOT NULL AND status != 'off-duty' *)
Record Located := {
  p_id : Z;
  p_name : string;
  p_last_lat : option real;
  p_last_lon : option real;
  p_status : string;
  p_callsign : option string
}.

Definition on_map (row : Z * @Rescuer real) : Prop :=
  is_Some (last_lat row.2) ∧ r_status row.2 ≠ "off-duty".

#[global] Instance on_map_dec row : Decision (on_map row).
Proof. unfold on_map. apply _. Defined.

Definition position (row : Z * @Rescuer real) : Located :=
  {| p_id := row.1; p_name := name row.2; p_last_lat := last_lat row.2;
     p_last_lon := last_lon row.2; p_status := r_status row.2;
     p_callsign := callsign row.2 |}.

Definition selectLocations db : list Located :=
  position <$> map_to_list (filter on_map (rescuers db)).

(** GET /api/rescuers/locations *)
Definition ListLocations (fault : option Error) db : Reply (list Located) * DB :=
  match query fault unchecked (λ db, (selectLocations db, db)) db with
  | (Ok rows, db') => (Sent rows, db')
  | (Throw err, db') => (Failed 500 (message err), db')
  end.

(** DELETE FROM rescuers WHERE id = $1 *)
Definition deleteRescuer (id : Z) db : unit * DB :=
  ((), {| tickets := tickets db; rescuers := delete id (rescuers db) |}).

(** DELETE /api/rescuers/:id *)
Definition DeleteRescuer (fault : option Error) (id : Z) db : Reply string * DB :=
  match query fault unchecked (deleteRescuer id) db with
  | (Ok _, db') => (Sent "Rescuer deleted successfully", db')
  | (Throw err, db') => (Failed 500 (message err), db')
  end.

(** *** Tickets *)

(** INSERT INTO tickets (ticket_number, service_type, user_name, phone,
    latitude, longitude, incident_details) VALUES ($1, ..., $7) RETURNING id *)
Definition new_ticket (number service user phone : option string)
    (lat lon : option real) (details : option string) (now : timestamp) :
    @Ticket real timestamp :=
  {| ticket_number := number; service_type := service; user_name := user;
     t_phone := phone; latitude := lat; longitude := lon;
     incident_details := details;
     rescuer_id := None; rescuer_name := None;
     t_status := "ACTIVE"; created_at := now |}.

Definition insertTicket (id : Z) (row : Ticket) db : Z * DB :=
  (id, {| tickets := <[id := row]> (tickets db); rescuers := rescuers db |}).

Definition ticket_insertable (id : Z) db : option Error :=
  match tickets db !! id with
  | Some _ => Some primary_key_violation
  | None => None
  end.

Record Saved := {
  saved_message : string;
  saved_id : Z
}.

(** POST /api/ticket *)
Definition CreateTicket (fault : option Error) (newId : Z) (now : timestamp)
    (ticket_number service name phone : option string) (lat lon : option real)
    (details : option string) db : Reply Saved * DB :=
  match query fault (ticket_insertable newId)
          (insertTicket newId
             (new_ticket ticket_number service name phone lat lon details now)) db with
  | (Ok id, db') => (Sent {| saved_message := "Ticket saved"; saved_id := id |}, db')
  | (Throw err, db') => (Failed 500 (message err), db')
  end.

(** SELECT * FROM tickets WHERE status != 'SOLVED' ORDER BY created_at DESC.
    SQL leaves the order of rows with equal created_at open; the rows
    are merge-sorted here, and no property depends on how ties fall. *)
Definition unsolved (row : Z * @Ticket real timestamp) : Prop :=
  t_status row.2 ≠ "SOLVED".

#[global] Instance unsolved_dec row : Decision (unsolved row).
Proof. unfold unsolved. apply _. Defined.

Definition newest_first (a b : Z * @Ticket real timestamp) : Prop :=
  earlier (created_at b.2) (created_at a.2).

#[global] Instance newest_first_dec a b : Decision (newest_first a b).
Proof. unfold newest_first. apply _. Defined.

Definition selectUnsolved db : list (Z * Ticket) :=
  merge_sort newest_first (map_to_list (filter unsolved (tickets db))).

(** GET /api/tickets *)
Definition ListTickets (fault : option Error) db : Reply (list (Z * Ticket)) * DB :=
  match query fault unchecked (λ db, (selectUnsolved db, db)) db with
  | (Ok rows, db') => (Sent rows, db')
  | (Throw err, db') => (Failed 500 (message err), db')
  end.

(** SELECT status, rescuer_name FROM tickets WHERE ticket_number = $1.
    Nothing makes ticket_number unique; which row comes first when
    several carry the number is left to the store. *)
Record Progress := {
  p_ticket_status : string;
  p_rescuer_name : option string
}.

Definition numbered (number : string) (row : Z * @Ticket real timestamp) : Prop :=
  ticket_number row.2 = Some number.

#[global] Instance numbered_dec number row : Decision (numbered number row).
Proof. unfold numbered. apply _. Defined.

Definition progress (row : Z * @Ticket real timestamp) : Progress :=
  {| p_ticket_status := t_status row.2; p_rescuer_name := rescuer_name row.2 |}.

Definition selectProgress (number : string) db : list Progress :=
  progress <$> map_to_list (filter (numbered number) (tickets db)).

(** GET /api/ticket/status/:ticket_number *)
Definition TicketStatus (fault : option Error) (number : string) db :
    Reply Progress * DB :=
  match query fault unchecked (λ db, (selectProgress number db, db)) db with
  | (Ok rows, db') =>
      match rows with
      | [] => (Failed 404 "Ticket not found", db')
      | row :: _ => (Sent row, db')
      end
  | (Throw err, db') => (Failed 500 (message err), db')
  end.

(** *** Messages *)

Record Message := {
  m_ticket_number : option string;
  sender : option string;
  m_message : option string;
  m_timestamp : timestamp          (* TIMESTAMP DEFAULT CURRENT_TIMESTAMP *)
}.

(** INSERT INTO messages (ticket_number, sender, message)
    VALUES ($1, $2, $3) RETURNING id *)
Definition insertMessage (id : Z) (row : Message) (messages : gmap Z Message) :
    Z * gmap Z Message :=
  (id, <[id := row]> messages).

Definition message_insertable (id : Z) (messages : gmap Z Message) : option Error :=
  match messages !! id with
  | Some _ => Some primary_key_violation
  | None => None
  end.

Record Posted := {
  posted_success : bool;
  posted_id : Z
}.

(** POST /api/chat/send *)
Definition ChatSend (fault : option Error) (newId : Z) (now : timestamp)
    (ticket_number sender msg : option string) (messages : gmap Z Message) :
    Reply Posted * gmap Z Message :=
  match query fault (message_insertable newId)
          (insertMessage newId
             {| m_ticket_number := ticket_number; sender := sender;
                m_message := msg; m_timestamp := now |}) messages with
  | (Ok id, messages') => (Sent {| posted_success := true; posted_id := id |}, messages')
  | (Throw err, messages') => (Failed 500 (message err), messages')
  end.

(** SELECT * FROM messages WHERE ticket_number = $1 ORDER BY timestamp ASC
    (ties as for the tickets) *)
Definition about (number : string) (row : Z * Message) : Prop :=
  m_ticket_number row.2 = Some number.

#[global] Instance about_dec number row : Decision (about number row).
Proof. unfold about. apply _. Defined.

Definition oldest_first (a b : Z * Message) : Prop :=
  earlier (m_timestamp a.2) (m_timestamp b.2).

#[global] Instance oldest_first_dec a b : Decision (oldest_first a b).
Proof. unfold oldest_first. apply _. Defined.

Definition selectMessages (number : string) (messages : gmap Z Message) :
    list (Z * Message) :=
  merge_sort oldest_first (map_to_list (filter (about number) messages)).

(** GET /api/chat/:ticket_number *)
Definition ChatList (fault : option Error) (number : string)
    (messages : gmap Z Message) : Reply (list (Z * Message)) * gmap Z Message :=
  match query fault (λ _, None) (λ m, (selectMessages number m, m)) messages with
  | (Ok rows, messages') => (Sent rows, messages')
  | (Throw err, messages') => (Failed 500 (message err), messages')
  end.

(** *** Reading the run of a handler of the monad

    The tables it leaves committed and the response it sends, from
    tables [db] under the fault schedule [f]. *)
Definition tables_after (h : M unit) (f : nat → option Error) db : @DB real timestamp :=
  committed (store (run h (init f None db))).

Definition response_to (h : M unit) (f : nat → option Error) db : option (@Response real) :=
  sent (run h (init f None db)).

(** How the promise of a handler settles: [Ok] when it resolves,
    [Throw e] when the error [e] leaves the handler and the promise
    rejects. *)
Definition settles (h : M unit) (w : @World real timestamp) : Result unit := (h w).1.

(** The handler answers, and an answer other than 200 comes with the
    tables as they were. *)
Definition fails_cleanly (h : M unit) (f : nat → option Error) db : Prop :=
  ∃ resp, response_to h f db = Some resp ∧
          (code resp ≠ 200%nat → tables_after h f db = db).

End Routes.

Arguments Sent {A} a.
Arguments Failed {A} code error.
Arguments Ok {A} a.
Arguments Throw {A} e.

(** ** Sample tables

    Two tickets and two rescuers, with integers for the REAL and
    TIMESTAMP values and a toy password check in which the hash of a
    password is the password after [hash:]. *)

Definition toy_compare (pw hash : string) : bool :=
  String.eqb hash (String.append "hash:" pw).

Definition sos_001 : @Ticket Z Z :=
  {| ticket_number := Some "SOS-001"; service_type := Some "fire";
     user_name := Some "Maria"; t_phone := Some "0917";
     latitude := Some 10; longitude := Some 123;
     incident_details := None;
     rescuer_id := None; rescuer_name := None;
     t_status := "ACTIVE"; created_at := 100 |}.

Definition sos_002 : @Ticket Z Z :=
  {| ticket_number := Some "SOS-002"; service_type := Some "medical";
     user_name := Some "Jose"; t_phone := None;
     latitude := Some 11; longitude := Some 124;
     incident_details := Some "fall";
     rescuer_id := Some 7; rescuer_name := Some "Bea";
     t_status := "SOLVED"; created_at := 90 |}.

Definition alex : @Rescuer Z :=
  {| name := "Alex"; badge_id := "B-5"; callsign := Some "Alpha";
     r_phone := None; password := "hash:secret";
     profile_image := Some [Byte.xff; Byte.xd8; Byte.xff];
     r_status := "on-mission"; last_lat := None; last_lon := None |}.

Definition bea : @Rescuer Z :=
  {| name := "Bea"; badge_id := "B-7"; callsign := None;
     r_phone := Some "0918"; password := "hash:hunter2";
     profile_image := None;
     r_status := "available"; last_lat := Some 11; last_lon := Some 124 |}.

Definition sample : @DB Z Z :=
  {| tickets := {[ 1 := sos_001; 2 := sos_002 ]};
     rescuers := {[ 5 := alex; 7 := bea ]} |}.

(** The schedule in which only the [k]-th statement fails. *)
Definition fail_at (k : nat) : nat → option Error :=
  λ n, if Nat.eqb n k then Some {| message := "connection terminated" |} else None.

(** The hasher that goes with [toy_compare]. *)
Definition toy_hash (salt pw : string) : string := String.append "hash:" pw.

(** The schedule in which the [k]-th statement and the one after it fail. *)
Definition fail_twice (k : nat) : nat → option Error :=
  λ n, if Nat.eqb n k || Nat.eqb n (S k)
       then Some {| message := "connection terminated" |} else None.

Definition chat : gmap Z (@Message Z) :=
  {[ 1 := {| m_ticket_number := Some "SOS-001"; sender := Some "user";
             m_message := Some "help"; m_timestamp := 105 |};
     2 := {| m_ticket_number := Some "SOS-002"; sender := Some "user";
             m_message := Some "hello"; m_timestamp := 95 |};
     3 := {| m_ticket_number := Some "SOS-001"; sender := Some "dispatcher";
             m_message := Some "on our way"; m_timestamp := 101 |} ]}.

Section Properties.

Context {real timestamp : Type}.
Context (bcrypt_compare : string → string → bool).
Implicit Types (db : @DB real timestamp) (t : @Ticket real timestamp) (r : @Rescuer real).

(** ** Running a handler on a fault schedule *)

Ltac unfold_handler :=
  unfold run, AssignRescuer, SolveTicket, ReportLocation, Login, Logout,
    UpdateRescuer, GetImage, finally, try_catch, client_begin, client_update,
    client_commit, client_rollback, pool_update, pool_select, statement, init,
    pool_connect, client_release, respond, no_faults, mbind, M_bind;
  simpl.

(** Use what is known of the schedule at the statement reached. *)
Ltac use_fault :=
  match goal with
  | H : ?f ?n = _ |- context [?f ?n] => rewrite H; simpl
  end.

(** Split on whether the statement reached fails. *)
Ltac split_fault :=
  match goal with
  | f : nat → option Error |- context [?g ?n] =>
      constr_eq f g; destruct (f n) eqn:?; simpl
  end.

(** ** AssignRescuer *)

(** Whatever fails, the committed state is the one before the call
    or the one with both rows updated, the latter exactly when the
    handler answers "Unit dispatched!"; no statement of the handler
    exposes another committed state. *)
Lemma assign_all_or_nothing f c db ticketId rescuerId rescuerName :
  let w := run (AssignRescuer ticketId rescuerId rescuerName) (init f c db) in
  let post := dispatched_db ticketId rescuerId rescuerName db in
  (sent w = Some unit_dispatched ∧ store w = {| committed := post; txn := None |}
     ∧ observed w = [db; db; db; post])
  ∨ (sent w ≠ Some unit_dispatched ∧ committed (store w) = db
     ∧ Forall (λ d, d = db) (observed w)).
Proof.
  unfold_handler. destruct c as [e|]; simpl.
  { right. repeat split; [discriminate | constructor]. }
  repeat split_fault;
    solve [ left; repeat split; reflexivity
          | right; unfold observed; simpl;
            repeat split; first [discriminate | repeat constructor] ].
Qed.

(** Where the failure report works.  A store failure at any statement
    of the transaction (BEGIN, either UPDATE, or COMMIT), followed by a
    ROLLBACK that reaches the store, is reported as 500 "Update failed"
    and leaves the committed tables as they were before the call, with
    no transaction left open and no other committed state ever
    exposed. *)
Theorem assign_failure_atomic f db ticketId rescuerId rescuerName (k : nat) e :
  (k < 4)%nat →
  (∀ j, (j < k)%nat → f j = None) →
  f k = Some e →
  f (S k) = None →
  let w := run (AssignRescuer ticketId rescuerId rescuerName) (init f None db) in
  sent w = Some update_failed ∧
  store w = {| committed := db; txn := None |} ∧
  tickets (committed (store w)) !! ticketId = tickets db !! ticketId ∧
  rescuers (committed (store w)) !! rescuerId = rescuers db !! rescuerId ∧
  Forall (λ d, d = db) (observed w).
Proof.
  intros Hk Hbefore Hfail Hrollback.
  assert (H4 : (k = 0 ∨ k = 1 ∨ k = 2 ∨ k = 3)%nat) by lia.
  destruct H4 as [-> | [-> | [-> | ->]]];
    try (assert (f 0%nat = None) by (apply Hbefore; lia));
    try (assert (f 1%nat = None) by (apply Hbefore; lia));
    try (assert (f 2%nat = None) by (apply Hbefore; lia));
    unfold_handler; repeat use_fault;
    unfold observed; simpl; repeat split; repeat constructor.
Qed.

(** The client taken from the pool is released on every path. *)
Lemma assign_releases_client f db ticketId rescuerId rescuerName :
  leased (run (AssignRescuer ticketId rescuerId rescuerName) (init f None db)) = 0%nat.
Proof. unfold_handler. repeat split_fault; reflexivity. Qed.

(** When [pool.connect()] fails, before the try block, the error
    leaves the handler: the handler sends nothing and nothing was asked
    of the store. *)
Lemma assign_connect_failure f e db ticketId rescuerId rescuerName :
  let w := run (AssignRescuer ticketId rescuerId rescuerName) (init f (Some e) db) in
  sent w = None ∧ store w = {| committed := db; txn := None |} ∧ trace w = [].
Proof. repeat split; reflexivity. Qed.

(** When the ROLLBACK of the catch block fails as well, the error
    leaves the handler before the line that answers 500: the handler
    sends nothing, and the committed tables are still those before the
    call. *)
Lemma assign_rollback_failure f db ticketId rescuerId rescuerName (k : nat) e e' :
  (k < 4)%nat →
  (∀ j, (j < k)%nat → f j = None) →
  f k = Some e →
  f (S k) = Some e' →
  let w := run (AssignRescuer ticketId rescuerId rescuerName) (init f None db) in
  sent w = None ∧ committed (store w) = db.
Proof.
  intros Hk Hbefore Hfail Hrollback.
  assert (H4 : (k = 0 ∨ k = 1 ∨ k = 2 ∨ k = 3)%nat) by lia.
  destruct H4 as [-> | [-> | [-> | ->]]];
    try (assert (f 0%nat = None) by (apply Hbefore; lia));
    try (assert (f 1%nat = None) by (apply Hbefore; lia));
    try (assert (f 2%nat = None) by (apply Hbefore; lia));
    unfold_handler; repeat use_fault; split; reflexivity.
Qed.

(** Without a failure the handler answers "Unit dispatched!", whatever
    the tables hold. *)
Lemma assign_succeeds db ticketId rescuerId rescuerName :
  let w := run (AssignRescuer ticketId rescuerId rescuerName) (init no_faults None db) in
  sent w = Some unit_dispatched ∧
  store w = {| committed := dispatched_db ticketId rescuerId rescuerName db;
               txn := None |}.
Proof. split; reflexivity. Qed.

(** C2. When the handler answers "Unit dispatched!" for a ticket and a
    rescuer that exist, the committed ticket row carries the rescuer's
    id and name and the status DISPATCHED, the committed rescuer row
    has status on-mission, and every committed state exposed during the
    call is either the one before the call or this final one. *)
Theorem assign_success f c db ticketId rescuerId rescuerName t r :
  tickets db !! ticketId = Some t →
  rescuers db !! rescuerId = Some r →
  let w := run (AssignRescuer ticketId rescuerId rescuerName) (init f c db) in
  sent w = Some unit_dispatched →
  let post := committed (store w) in
  (∃ t', tickets post !! ticketId = Some t' ∧
         rescuer_id t' = Some rescuerId ∧
         rescuer_name t' = Some rescuerName ∧
         t_status t' = "DISPATCHED") ∧
  (∃ r', rescuers post !! rescuerId = Some r' ∧ r_status r' = "on-mission") ∧
  Forall (λ d, d = db ∨ d = post) (observed w).
Proof.
  intros Ht Hr w Hsent post. subst w post.
  destruct (assign_all_or_nothing f c db ticketId rescuerId rescuerName)
    as [(_ & -> & ->) | (Hne & _)]; [| contradiction].
  simpl. split; [| split].
  - exists (dispatched rescuerId rescuerName t).
    rewrite lookup_alter_eq, Ht. auto.
  - exists (with_status "on-mission" r).
    rewrite lookup_alter_eq, Hr. auto.
  - repeat (constructor; [auto |]). constructor.
Qed.

(** C8. The handler does not look at the ticket it dispatches: for a
    ticket in any status and with any previous rescuer, it answers
    "Unit dispatched!" and the row gets the new rescuer id, the new
    rescuer name and the status DISPATCHED, its other columns kept. *)
Theorem assign_no_transition_guard db ticketId rescuerId rescuerName t :
  tickets db !! ticketId = Some t →
  let w := run (AssignRescuer ticketId rescuerId rescuerName) (init no_faults None db) in
  sent w = Some unit_dispatched ∧
  tickets (committed (store w)) !! ticketId
    = Some (dispatched rescuerId rescuerName t) ∧
  rescuer_id (dispatched rescuerId rescuerName t) = Some rescuerId ∧
  rescuer_name (dispatched rescuerId rescuerName t) = Some rescuerName ∧
  t_status (dispatched rescuerId rescuerName t) = "DISPATCHED".
Proof.
  intros Ht. simpl. rewrite lookup_alter_eq, Ht. auto.
Qed.

(** C10. An id that matches no row is not an error: the handler still
    answers "Unit dispatched!", the same answer it gives on any other
    tables, and the table of the missing row is left as it was. *)
Theorem assign_nonexistent_id db ticketId rescuerId rescuerName :
  tickets db !! ticketId = None ∨ rescuers db !! rescuerId = None →
  let w := run (AssignRescuer ticketId rescuerId rescuerName) (init no_faults None db) in
  sent w = Some unit_dispatched ∧
  (∀ db', sent (run (AssignRescuer ticketId rescuerId rescuerName)
                    (init no_faults None db')) = sent w) ∧
  (tickets db !! ticketId = None → tickets (committed (store w)) = tickets db) ∧
  (rescuers db !! rescuerId = None → rescuers (committed (store w)) = rescuers db).
Proof.
  intros _. simpl. repeat split; intros; try reflexivity; by apply alter_id'.
Qed.

(** ** SolveTicket *)

Lemma solved_solved t : solved (solved t) = solved t.
Proof. reflexivity. Qed.

Lemma updateSolved_idem id db : updateSolved id (updateSolved id db) = updateSolved id db.
Proof.
  unfold updateSolved; simpl. f_equal.
  rewrite alter_alter_eq. apply alter_ext. intros t _. apply solved_solved.
Qed.

(** C4. Solving a ticket, whatever its status, answers "Ticket marked as
    solved" and sets the status to SOLVED, keeps the ticket's rescuer id
    and rescuer name, and leaves the rescuers table alone; solving it a
    second time answers the same and changes nothing. *)
Theorem solve_idempotent db id t :
  tickets db !! id = Some t →
  let w1 := run (SolveTicket id) (init no_faults None db) in
  let w2 := run (SolveTicket id) (init no_faults None (committed (store w1))) in
  sent w1 = Some ticket_solved ∧
  sent w2 = Some ticket_solved ∧
  (∃ t', tickets (committed (store w1)) !! id = Some t' ∧
         t_status t' = "SOLVED" ∧
         rescuer_id t' = rescuer_id t ∧ rescuer_name t' = rescuer_name t) ∧
  committed (store w2) = committed (store w1) ∧
  rescuers (committed (store w1)) = rescuers db.
Proof.
  intros Ht. simpl. repeat split.
  - exists (solved t). rewrite lookup_alter_eq, Ht. auto.
  - apply updateSolved_idem.
Qed.

(** ** ReportLocation *)

Lemma checkMission_nonempty rescuerId db :
  (0 < length (checkMission rescuerId db))%nat ↔ has_mission rescuerId db.
Proof.
  unfold checkMission, has_mission. rewrite length_fmap. split.
  - intros Hlen.
    destruct (map_to_list (filter (on_mission_for rescuerId) (tickets db)))
      as [| [i t] l] eqn:Hrows; [simpl in Hlen; lia |].
    assert (Hin : (i, t) ∈ map_to_list (filter (on_mission_for rescuerId) (tickets db)))
      by (rewrite Hrows; left).
    apply elem_of_map_to_list, map_lookup_filter_Some in Hin as [Hi [Hr Hs]].
    exists i, t. auto.
  - intros (i & t & Hi & Hr & Hs).
    assert (Hin : (i, t) ∈ map_to_list (filter (on_mission_for rescuerId) (tickets db))).
    { apply elem_of_map_to_list, map_lookup_filter_Some. split; [done |]. by split. }
    destruct (map_to_list (filter (on_mission_for rescuerId) (tickets db)));
      [by apply not_elem_of_nil in Hin | simpl; lia].
Qed.

(** C3. A location report reads the DISPATCHED tickets of the rescuer
    and then issues one UPDATE, which stores the coordinates together
    with the status: responding when the rescuer holds a DISPATCHED
    ticket, available otherwise. *)
Theorem report_location_derives_status db rescuerId (lat lon : real) r :
  rescuers db !! rescuerId = Some r →
  let w := run (ReportLocation rescuerId lat lon) (init no_faults None db) in
  ∃ s,
    (has_mission rescuerId db ∧ s = "responding"
     ∨ ¬ has_mission rescuerId db ∧ s = "available") ∧
    sent w = Some (location_saved s) ∧
    committed (store w) = updateLocation lat lon s rescuerId db ∧
    rescuers (committed (store w)) !! rescuerId = Some (located lat lon s r) ∧
    r_status (located lat lon s r) = s ∧
    last_lat (located lat lon s r) = Some lat ∧
    last_lon (located lat lon s r) = Some lon ∧
    (trace w).*1 = [SELECT; UPDATE] ∧
    writes w = 1%nat ∧
    tickets (committed (store w)) = tickets db.
Proof.
  intros Hr. unfold_handler.
  destruct (decide (0 < length (checkMission rescuerId db))%nat) as [Hm | Hm];
    rewrite checkMission_nonempty in Hm; simpl.
  - exists "responding". rewrite lookup_alter_eq, Hr. repeat split; auto.
  - exists "available". rewrite lookup_alter_eq, Hr. repeat split; auto.
Qed.

(** ** Login and Logout *)

Lemma badge_unique_NoDup db : NoDup (badges db) → badge_unique db.
Proof.
  unfold badges. intros Hnd i j r1 r2 Hi Hj Hb.
  apply elem_of_map_to_list in Hi, Hj.
  apply list_elem_of_lookup in Hi as [n Hn], Hj as [m Hm].
  assert (n = m) as ->.
  { apply (NoDup_lookup _ n m (badge_id r1) Hnd).
    - by rewrite list_lookup_fmap, Hn.
    - rewrite list_lookup_fmap, Hm. simpl. by rewrite Hb. }
  congruence.
Qed.

Lemma badge_unknown_badges db b : b ∉ badges db → badge_unknown b db.
Proof.
  intros Hnot j r Hj Hb. apply Hnot. unfold badges.
  apply list_elem_of_fmap. exists (j, r).
  split; [by rewrite <- Hb | by apply elem_of_map_to_list].
Qed.

Lemma selectByBadge_unique db id r :
  rescuers db !! id = Some r → badge_unique db →
  selectByBadge (badge_id r) db = [(id, r)].
Proof.
  intros Hr Huniq. unfold selectByBadge.
  assert (Hone : filter (has_badge (badge_id r)) (rescuers db) = {[ id := r ]}).
  { apply map_eq. intros j. destruct (decide (j = id)) as [-> | Hne].
    - rewrite lookup_singleton_eq. by apply map_lookup_filter_Some.
    - rewrite lookup_singleton_ne by done.
      apply map_lookup_filter_None.
      destruct (rescuers db !! j) as [r' |] eqn:Hj; [right | by left].
      intros x [= <-] Hb. apply Hne. by apply (Huniq j id r' r). }
  rewrite Hone. apply map_to_list_singleton.
Qed.

Lemma selectByBadge_unknown db b :
  badge_unknown b db → selectByBadge b db = [].
Proof.
  intros Hno. unfold selectByBadge.
  apply map_to_list_empty_iff, map_empty. intros j.
  apply map_lookup_filter_None.
  destruct (rescuers db !! j) as [r |] eqn:Hj; [right | by left].
  intros x [= <-] Hb. by apply (Hno j r).
Qed.

(** C5. A login whose password verifies against the stored hash is
    answered with 200 and leaves the rescuer with status available,
    whatever the status was; a logout is answered with success and
    leaves the rescuer with status off-duty, whatever the status was. *)
Theorem login_logout_force_status db id r pw db' rescuerId r' :
  rescuers db !! id = Some r →
  badge_unique db →
  bcrypt_compare pw (password r) = true →
  rescuers db' !! rescuerId = Some r' →
  let w := run (Login bcrypt_compare (badge_id r) pw) (init no_faults None db) in
  let w' := run (Logout rescuerId) (init no_faults None db') in
  code <$> sent w = Some 200%nat ∧
  rescuers (committed (store w)) !! id = Some (with_status "available" r) ∧
  r_status (with_status "available" r) = "available" ∧
  sent w' = Some logged_out ∧
  rescuers (committed (store w')) !! rescuerId = Some (with_status "off-duty" r') ∧
  r_status (with_status "off-duty" r') = "off-duty".
Proof.
  intros Hr Huniq Hpw Hr'. unfold_handler.
  rewrite (selectByBadge_unique db id r Hr Huniq). simpl. rewrite Hpw. simpl.
  rewrite !lookup_alter_eq, Hr, Hr'. repeat split; reflexivity.
Qed.

(** C9. The body of a successful login is the row selected before the
    UPDATE: it carries the stored password hash and the status the
    rescuer had before logging in, while the table now says available. *)
Theorem login_returns_row_before_update db id r pw :
  rescuers db !! id = Some r →
  badge_unique db →
  bcrypt_compare pw (password r) = true →
  let w := run (Login bcrypt_compare (badge_id r) pw) (init no_faults None db) in
  ∃ row,
    sent w = Some {| code := 200; body := JsonRescuer id row |} ∧
    password row = password r ∧
    r_status row = r_status r ∧
    row = r ∧
    r_status <$> rescuers (committed (store w)) !! id = Some "available".
Proof.
  intros Hr Huniq Hpw. unfold_handler.
  rewrite (selectByBadge_unique db id r Hr Huniq). simpl. rewrite Hpw. simpl.
  exists r. rewrite lookup_alter_eq, Hr. repeat split; reflexivity.
Qed.


(** ** UpdateRescuer *)

(** The statement without the image column changes no image, whether
    it fails or not. *)
Lemma update_without_image_keeps_images f c db id n b cs p j :
  let w := run (UpdateRescuer id n b cs p None) (init f c db) in
  profile_image <$> rescuers (committed (store w)) !! j
  = profile_image <$> rescuers db !! j.
Proof.
  unfold_handler. unfold badge_free.
  destruct (f 0%nat) as [e |]; simpl; [done |].
  destruct (badge_conflict b id db); simpl; [done |].
  destruct (decide (j = id)) as [-> | Hne].
  - rewrite lookup_alter_eq. by destruct (rescuers db !! id).
  - by rewrite lookup_alter_ne.
Qed.

(** C6. An update without a new image rewrites name, badge, callsign
    and phone and keeps the stored image, which the image route
    answers exactly as before the update; an update with a new image
    stores the new bytes, which the image route then serves. *)
Theorem update_rescuer_image db id n b cs p r img :
  rescuers db !! id = Some r →
  badge_conflict b id db = false →
  let kept := run (UpdateRescuer id n b cs p None) (init no_faults None db) in
  let replaced := run (UpdateRescuer id n b cs p (Some img)) (init no_faults None db) in
  let image_of w := sent (run (GetImage id) (init no_faults None (committed (store w)))) in
  sent kept = Some updated ∧
  rescuers (committed (store kept)) !! id = Some (edited n b cs p r) ∧
  profile_image (edited n b cs p r) = profile_image r ∧
  image_of kept = sent (run (GetImage id) (init no_faults None db)) ∧
  image_of kept = Some (image_response (profile_image r)) ∧
  sent replaced = Some updated ∧
  rescuers (committed (store replaced)) !! id = Some (edited_with_image n b cs p img r) ∧
  profile_image (edited_with_image n b cs p img r) = Some img ∧
  image_of replaced = Some {| code := 200; body := Jpeg img |}.
Proof.
  intros Hr Hfree. unfold_handler. unfold badge_free, selectImage. simpl.
  rewrite Hfree. simpl. rewrite !lookup_alter_eq, Hr. simpl.
  destruct (profile_image r); repeat split; reflexivity.
Qed.

End Properties.

(** ** The properties on the sample tables *)

Lemma sample_badge_unique : badge_unique sample.
Proof. apply badge_unique_NoDup. apply (bool_decide_unpack _). vm_compute. reflexivity. Qed.

Lemma assign_failure_atomic_witness :
  fail_at 2 2 = Some {| message := "connection terminated" |} ∧
  let w := run (AssignRescuer 1 5 "Alex") (init (fail_at 2) None sample) in
  sent w = Some update_failed ∧
  store w = {| committed := sample; txn := None |} ∧
  tickets (committed (store w)) !! 1 = Some sos_001 ∧
  rescuers (committed (store w)) !! 5 = Some alex ∧
  Forall (λ d, d = sample) (observed w).
Proof.
  split; [reflexivity |].
  apply (assign_failure_atomic (fail_at 2) sample 1 5 "Alex" 2
           {| message := "connection terminated" |}).
  - lia.
  - intros [| [| j]] Hj; [reflexivity | reflexivity | lia].
  - reflexivity.
  - reflexivity.
Defined.

(** C1. Where the failure report is missed: the second UPDATE of the
    transaction fails and the ROLLBACK of the catch block fails too, as
    when the connection is lost in the middle of the transaction.  The
    line that answers 500 "Update failed" is not reached: the ROLLBACK's
    error leaves the handler, whose promise rejects, and the handler has
    sent no response.  The committed tables are those before the
    call. *)
Theorem assign_failure_unreported :
  let f := fail_twice 2 in
  let h := AssignRescuer 1 5 "Alex" in
  let w := run h (init f None sample) in
  f 0%nat = None ∧ f 1%nat = None ∧
  is_Some (f 2%nat) ∧ is_Some (f 3%nat) ∧
  (trace w).*1 = [BEGIN; UPDATE; UPDATE; ROLLBACK] ∧
  settles h (init f None sample) = Throw {| message := "connection terminated" |} ∧
  sent w = None ∧
  sent w ≠ Some update_failed ∧
  committed (store w) = sample.
Proof.
  vm_compute. repeat split; first [reflexivity | by eexists | discriminate].
Qed.

Lemma assign_success_witness :
  tickets sample !! 1 = Some sos_001 ∧
  rescuers sample !! 5 = Some alex ∧
  let w := run (AssignRescuer 1 5 "Alex") (init no_faults None sample) in
  sent w = Some unit_dispatched ∧
  let post := committed (store w) in
  (∃ t', tickets post !! 1 = Some t' ∧
         rescuer_id t' = Some 5 ∧
         rescuer_name t' = Some "Alex" ∧
         t_status t' = "DISPATCHED") ∧
  (∃ r', rescuers post !! 5 = Some r' ∧ r_status r' = "on-mission") ∧
  Forall (λ d, d = sample ∨ d = post) (observed w).
Proof.
  repeat split; try reflexivity.
  all: apply (assign_success no_faults None sample 1 5 "Alex" sos_001 alex);
    reflexivity.
Defined.

Lemma assign_no_transition_guard_witness :
  tickets sample !! 2 = Some sos_002 ∧
  t_status sos_002 = "SOLVED" ∧
  rescuer_id sos_002 = Some 7 ∧
  let w := run (AssignRescuer 2 5 "Alex") (init no_faults None sample) in
  sent w = Some unit_dispatched ∧
  tickets (committed (store w)) !! 2 = Some (dispatched 5 "Alex" sos_002) ∧
  rescuer_id (dispatched 5 "Alex" sos_002) = Some 5 ∧
  rescuer_name (dispatched 5 "Alex" sos_002) = Some "Alex" ∧
  t_status (dispatched 5 "Alex" sos_002) = "DISPATCHED".
Proof.
  split; [reflexivity |]. split; [reflexivity |]. split; [reflexivity |].
  apply (assign_no_transition_guard sample 2 5 "Alex" sos_002). reflexivity.
Defined.

Lemma assign_nonexistent_id_witness :
  tickets sample !! 99 = None ∧
  let w := run (AssignRescuer 99 5 "Alex") (init no_faults None sample) in
  sent w = Some unit_dispatched ∧
  (∀ db' : @DB Z Z,
     sent (run (AssignRescuer 99 5 "Alex") (init no_faults None db')) = sent w) ∧
  (tickets sample !! 99 = None → tickets (committed (store w)) = tickets sample) ∧
  (rescuers sample !! 5 = None → rescuers (committed (store w)) = rescuers sample).
Proof.
  split; [reflexivity |].
  apply (assign_nonexistent_id sample 99 5 "Alex"). left. reflexivity.
Defined.

Lemma solve_idempotent_witness :
  tickets sample !! 2 = Some sos_002 ∧
  let w1 := run (SolveTicket 2) (init no_faults None sample) in
  let w2 := run (SolveTicket 2) (init no_faults None (committed (store w1))) in
  sent w1 = Some ticket_solved ∧
  sent w2 = Some ticket_solved ∧
  (∃ t', tickets (committed (store w1)) !! 2 = Some t' ∧
         t_status t' = "SOLVED" ∧
         rescuer_id t' = rescuer_id sos_002 ∧ rescuer_name t' = rescuer_name sos_002) ∧
  committed (store w2) = committed (store w1) ∧
  rescuers (committed (store w1)) = rescuers sample.
Proof.
  split; [reflexivity |].
  apply (solve_idempotent sample 2 sos_002). reflexivity.
Defined.

Lemma report_location_derives_status_witness :
  let db := dispatched_db 1 5 "Alex" sample in
  rescuers db !! 5 = Some (with_status "on-mission" alex) ∧
  let r := with_status "on-mission" alex in
  let w := run (ReportLocation 5 10 123) (init no_faults None db) in
  ∃ s,
    (has_mission 5 db ∧ s = "responding" ∨ ¬ has_mission 5 db ∧ s = "available") ∧
    sent w = Some (location_saved s) ∧
    committed (store w) = updateLocation 10 123 s 5 db ∧
    rescuers (committed (store w)) !! 5 = Some (located 10 123 s r) ∧
    r_status (located 10 123 s r) = s ∧
    last_lat (located 10 123 s r) = Some 10 ∧
    last_lon (located 10 123 s r) = Some 123 ∧
    (trace w).*1 = [SELECT; UPDATE] ∧
    writes w = 1%nat ∧
    tickets (committed (store w)) = tickets db.
Proof.
  split; [reflexivity |].
  apply (report_location_derives_status (dispatched_db 1 5 "Alex" sample) 5 10 123
           (with_status "on-mission" alex)).
  reflexivity.
Defined.

Lemma login_logout_force_status_witness :
  rescuers sample !! 5 = Some alex ∧
  r_status alex = "on-mission" ∧
  toy_compare "secret" (password alex) = true ∧
  let w := run (Login toy_compare (badge_id alex) "secret") (init no_faults None sample) in
  let w' := run (Logout 5) (init no_faults None sample) in
  code <$> sent w = Some 200%nat ∧
  rescuers (committed (store w)) !! 5 = Some (with_status "available" alex) ∧
  r_status (with_status "available" alex) = "available" ∧
  sent w' = Some logged_out ∧
  rescuers (committed (store w')) !! 5 = Some (with_status "off-duty" alex) ∧
  r_status (with_status "off-duty" alex) = "off-duty".
Proof.
  split; [reflexivity |]. split; [reflexivity |]. split; [reflexivity |].
  apply (login_logout_force_status toy_compare sample 5 alex "secret" sample 5 alex).
  - reflexivity.
  - exact sample_badge_unique.
  - reflexivity.
  - reflexivity.
Defined.

Lemma login_returns_row_before_update_witness :
  rescuers sample !! 5 = Some alex ∧
  toy_compare "secret" (password alex) = true ∧
  let w := run (Login toy_compare (badge_id alex) "secret") (init no_faults None sample) in
  ∃ row,
    sent w = Some {| code := 200; body := JsonRescuer 5 row |} ∧
    password row = password alex ∧
    r_status row = r_status alex ∧
    row = alex ∧
    r_status <$> rescuers (committed (store w)) !! 5 = Some "available".
Proof.
  split; [reflexivity |]. split; [reflexivity |].
  apply (login_returns_row_before_update toy_compare sample 5 alex "secret").
  - reflexivity.
  - exact sample_badge_unique.
  - reflexivity.
Defined.



Lemma update_rescuer_image_witness :
  rescuers sample !! 5 = Some alex ∧
  badge_conflict "B-5" 5 sample = false ∧
  let img := [Byte.x89; Byte.x50] in
  let kept := run (UpdateRescuer 5 "Alexis" "B-5" None (Some "0999") None)
                  (init no_faults None sample) in
  let replaced := run (UpdateRescuer 5 "Alexis" "B-5" None (Some "0999") (Some img))
                      (init no_faults None sample) in
  let image_of w := sent (run (GetImage 5) (init no_faults None (committed (store w)))) in
  sent kept = Some updated ∧
  rescuers (committed (store kept)) !! 5
    = Some (edited "Alexis" "B-5" None (Some "0999") alex) ∧
  profile_image (edited "Alexis" "B-5" None (Some "0999") alex) = profile_image alex ∧
  image_of kept = sent (run (GetImage 5) (init no_faults None sample)) ∧
  image_of kept = Some (image_response (profile_image alex)) ∧
  sent replaced = Some updated ∧
  rescuers (committed (store replaced)) !! 5
    = Some (edited_with_image "Alexis" "B-5" None (Some "0999") img alex) ∧
  profile_image (edited_with_image "Alexis" "B-5" None (Some "0999") img alex) = Some img ∧
  image_of replaced = Some {| code := 200; body := Jpeg img |}.
Proof.
  split; [reflexivity |]. split; [vm_compute; reflexivity |].
  apply (update_rescuer_image sample 5 "Alexis" "B-5" None (Some "0999") alex
           [Byte.x89; Byte.x50]).
  - reflexivity.
  - vm_compute. reflexivity.
Defined.

(** ** Runs on the sample tables *)

Example assign_then_poll :
  let w := run (AssignRescuer 1 5 "Alex") (init no_faults None sample) in
  sent w = Some unit_dispatched ∧
  (λ t, (t_status t, rescuer_name t)) <$> tickets (committed (store w)) !! 1
    = Some ("DISPATCHED", Some "Alex") ∧
  r_status <$> rescuers (committed (store w)) !! 5 = Some "on-mission" ∧
  (trace w).*1 = [BEGIN; UPDATE; UPDATE; COMMIT].
Proof. vm_compute. repeat split; reflexivity. Qed.

Example assign_second_update_fails :
  let w := run (AssignRescuer 1 7 "Bea") (init (fail_at 2) None sample) in
  sent w = Some update_failed ∧
  (trace w).*1 = [BEGIN; UPDATE; UPDATE; ROLLBACK] ∧
  t_status <$> tickets (committed (store w)) !! 1 = Some "ACTIVE" ∧
  r_status <$> rescuers (committed (store w)) !! 7 = Some "available".
Proof. vm_compute. repeat split; reflexivity. Qed.

Example assign_commit_fails :
  let w := run (AssignRescuer 1 7 "Bea") (init (fail_at 3) None sample) in
  sent w = Some update_failed ∧
  (trace w).*1 = [BEGIN; UPDATE; UPDATE; COMMIT; ROLLBACK] ∧
  store w = {| committed := sample; txn := None |}.
Proof. vm_compute. repeat split; reflexivity. Qed.

Example report_location_on_mission :
  let db := dispatched_db 1 5 "Alex" sample in
  sent (run (ReportLocation 5 10 123) (init no_faults None db))
    = Some (location_saved "responding").
Proof. vm_compute. reflexivity. Qed.

Example report_location_no_mission :
  let w := run (ReportLocation 7 10 123) (init no_faults None sample) in
  sent w = Some (location_saved "available") ∧
  rescuers (committed (store w)) !! 7 = Some (located 10 123 "available" bea).
Proof. vm_compute. repeat split; reflexivity. Qed.

Example login_on_mission :
  let w := run (Login toy_compare "B-5" "secret") (init no_faults None sample) in
  sent w = Some {| code := 200; body := JsonRescuer 5 alex |} ∧
  r_status alex = "on-mission" ∧
  r_status <$> rescuers (committed (store w)) !! 5 = Some "available".
Proof. vm_compute. repeat split; reflexivity. Qed.

Example login_wrong_password :
  sent (run (Login toy_compare "B-5" "guess") (init no_faults None sample))
    = Some auth_failed.
Proof. vm_compute. reflexivity. Qed.

Example update_badge_taken :
  let w := run (UpdateRescuer 5 "Alex" "B-7" None None (Some [Byte.x00]))
               (init no_faults None sample) in
  sent w = Some {| code := 500; body := Json [("error", VStr "Update failed")] |} ∧
  committed (store w) = sample.
Proof. vm_compute. repeat split; reflexivity. Qed.

Example image_missing :
  sent (run (GetImage 7) (init no_faults None sample))
    = Some {| code := 404; body := Text "Image not found" |}.
Proof. vm_compute. reflexivity. Qed.

(** * Properties of the routes together *)

Section RouteProperties.

Context {real timestamp : Type}.
Context (earlier : relation timestamp) `{∀ x y, Decision (earlier x y)}.
Context (bcrypt_compare : string → string → bool).
Context (bcrypt_hash : string → string → string).
Implicit Types (db : @DB real timestamp) (t : @Ticket real timestamp) (r : @Rescuer real).

Ltac run_handler :=
  unfold tables_after, response_to, run, AssignRescuer, SolveTicket, ReportLocation,
    Login, Logout, UpdateRescuer, GetImage, finally, try_catch, client_begin,
    client_update, client_commit, client_rollback, pool_update, pool_select,
    statement, init, pool_connect, client_release, respond, no_faults, mbind, M_bind;
  simpl.

(** ** Rows selected from a table *)

Lemma elem_of_select {A} (P : Z * A → Prop) `{∀ x, Decision (P x)} (m : gmap Z A) i x :
  (i, x) ∈ map_to_list (filter P m) ↔ m !! i = Some x ∧ P (i, x).
Proof. by rewrite elem_of_map_to_list, map_lookup_filter_Some. Qed.

Lemma select_unique {A} (P : Z * A → Prop) `{∀ x, Decision (P x)} (m : gmap Z A) i x :
  m !! i = Some x → P (i, x) →
  (∀ j y, m !! j = Some y → P (j, y) → j = i) →
  map_to_list (filter P m) = [(i, x)].
Proof.
  intros Hi HP Honly.
  assert (Hone : filter P m = {[ i := x ]}).
  { apply map_eq. intros j. destruct (decide (j = i)) as [-> | Hne].
    - rewrite lookup_singleton_eq. by apply map_lookup_filter_Some.
    - rewrite lookup_singleton_ne by done.
      apply map_lookup_filter_None.
      destruct (m !! j) as [y |] eqn:Hj; [right | by left].
      intros ? [= <-] Hy. apply Hne. by apply (Honly j y). }
  rewrite Hone. apply map_to_list_singleton.
Qed.

Lemma select_none {A} (P : Z * A → Prop) `{∀ x, Decision (P x)} (m : gmap Z A) :
  (∀ j y, m !! j = Some y → ¬ P (j, y)) →
  map_to_list (filter P m) = [].
Proof.
  intros Hno. apply map_to_list_empty_iff, map_empty. intros j.
  apply map_lookup_filter_None.
  destruct (m !! j) as [y |] eqn:Hj; [right | by left].
  intros ? [= <-]. by apply Hno.
Qed.

(** ** What each handler of the monad can leave behind *)

Lemma solve_outcome f db id :
  (response_to (SolveTicket id) f db = Some ticket_solved
     ∧ tables_after (SolveTicket id) f db = updateSolved id db)
  ∨ (∃ e, response_to (SolveTicket id) f db
            = Some {| code := 500; body := Json [("error", VStr (message e))] |}
          ∧ tables_after (SolveTicket id) f db = db).
Proof.
  run_handler. destruct (f 0%nat) as [e |]; simpl; [right; by exists e | by left].
Qed.

Lemma logout_outcome f db id :
  (response_to (Logout id) f db = Some logged_out
     ∧ tables_after (Logout id) f db = updateRescuerStatus "off-duty" id db)
  ∨ (∃ e, response_to (Logout id) f db
            = Some {| code := 500; body := Json [("error", VStr (message e))] |}
          ∧ tables_after (Logout id) f db = db).
Proof.
  run_handler. destruct (f 0%nat) as [e |]; simpl; [right; by exists e | by left].
Qed.

Lemma report_outcome f db id (lat lon : real) :
  (∃ s, response_to (ReportLocation id lat lon) f db = Some (location_saved s)
        ∧ tables_after (ReportLocation id lat lon) f db = updateLocation lat lon s id db)
  ∨ (∃ e, response_to (ReportLocation id lat lon) f db
            = Some {| code := 500; body := Json [("error", VStr (message e))] |}
          ∧ tables_after (ReportLocation id lat lon) f db = db).
Proof.
  run_handler. destruct (f 0%nat) as [e |]; simpl; [right; by exists e |].
  destruct (f 1%nat) as [e |]; simpl; [right; by exists e |].
  left. eexists. split; reflexivity.
Qed.

Lemma login_outcome f db b pw :
  (∃ id r, rescuers db !! id = Some r ∧ badge_id r = b
           ∧ bcrypt_compare pw (password r) = true
           ∧ response_to (Login bcrypt_compare b pw) f db
               = Some {| code := 200; body := JsonRescuer id r |}
           ∧ tables_after (Login bcrypt_compare b pw) f db
               = updateRescuerStatus "available" id db)
  ∨ ((response_to (Login bcrypt_compare b pw) f db = Some auth_failed
      ∨ response_to (Login bcrypt_compare b pw) f db = Some server_error)
     ∧ tables_after (Login bcrypt_compare b pw) f db = db).
Proof.
  run_handler. destruct (f 0%nat) as [e |]; simpl; [right; auto |].
  destruct (selectByBadge b db) as [| [id r] rows] eqn:Hrows; simpl; [right; auto |].
  assert (Hin : (id, r) ∈ selectByBadge b db) by (rewrite Hrows; left).
  apply elem_of_select in Hin as [Hr Hb].
  destruct (bcrypt_compare pw (password r)) eqn:Hpw; simpl; [| right; auto].
  destruct (f 1%nat) as [e |]; simpl; [right; auto |].
  left. exists id, r. auto.
Qed.

Lemma update_outcome f db id n b cs p file :
  (badge_conflict b id db = false
     ∧ response_to (UpdateRescuer id n b cs p file) f db = Some updated
     ∧ tables_after (UpdateRescuer id n b cs p file) f db
         = match file with
           | Some img => updateInfoImage n b cs p img id db
           | None => updateInfo n b cs p id db
           end)
  ∨ (response_to (UpdateRescuer id n b cs p file) f db = Some update_failed
     ∧ tables_after (UpdateRescuer id n b cs p file) f db = db).
Proof.
  run_handler. unfold badge_free.
  destruct file as [img |]; simpl;
    (destruct (f 0%nat) as [e |]; simpl; [right; auto |]);
    (destruct (badge_conflict b id db) eqn:Hc; simpl; [right; auto | left; auto]).
Qed.

Lemma update_applies f db id n b cs p file :
  f 0%nat = None → badge_conflict b id db = false →
  response_to (UpdateRescuer id n b cs p file) f db = Some updated ∧
  tables_after (UpdateRescuer id n b cs p file) f db
  = match file with
    | Some img => updateInfoImage n b cs p img id db
    | None => updateInfo n b cs p id db
    end.
Proof.
  intros Hf Hc. run_handler.
  destruct file; simpl; unfold badge_free; rewrite Hf, Hc; by split.
Qed.

(** ** Failures *)

(** X1. Whatever statement fails, the handlers that write one row
    (solve, logout, location report, login, update) send a response,
    and whenever that response is not a 200 the tables are the ones
    before the request. *)
Theorem writers_fail_cleanly f db id (lat lon : real) b pw n cs p file :
  fails_cleanly (SolveTicket id) f db ∧
  fails_cleanly (Logout id) f db ∧
  fails_cleanly (ReportLocation id lat lon) f db ∧
  fails_cleanly (Login bcrypt_compare b pw) f db ∧
  fails_cleanly (UpdateRescuer id n b cs p file) f db.
Proof.
  unfold fails_cleanly. repeat split.
  - destruct (solve_outcome f db id) as [[-> ->] | (e & -> & ->)];
      eexists; (split; [reflexivity | simpl; done]).
  - destruct (logout_outcome f db id) as [[-> ->] | (e & -> & ->)];
      eexists; (split; [reflexivity | simpl; done]).
  - destruct (report_outcome f db id lat lon) as [(s & -> & ->) | (e & -> & ->)];
      eexists; (split; [reflexivity | simpl; done]).
  - destruct (login_outcome f db b pw)
      as [(i & r & _ & _ & _ & -> & ->) | [[-> | ->] ->]];
      eexists; (split; [reflexivity | simpl; done]).
  - destruct (update_outcome f db id n b cs p file) as [(_ & -> & ->) | [-> ->]];
      eexists; (split; [reflexivity | simpl; done]).
Qed.

(** X24. The pool client of an assignment is released on every path.
    The error leaves the handler, whose promise rejects, in two cases
    only: when [pool.connect()] fails, and when a statement of the
    transaction fails and the ROLLBACK after it fails as well.  In
    every other case the promise resolves and the handler has answered
    either "Unit dispatched!" or 500 "Update failed". *)
Theorem assign_rejects_cases f c db ticketId rescuerId rescuerName :
  let h := AssignRescuer ticketId rescuerId rescuerName in
  let w := run h (init f c db) in
  leased w = 0%nat ∧
  ((∃ e, settles h (init f c db) = Throw e) ↔
   is_Some c ∨
   ∃ k, (k < 4)%nat ∧ (∀ j, (j < k)%nat → f j = None) ∧
        is_Some (f k) ∧ is_Some (f (S k))) ∧
  (settles h (init f c db) = Ok () ↔
   sent w = Some unit_dispatched ∨ sent w = Some update_failed).
Proof.
  unfold settles. run_handler. destruct c as [e |]; simpl.
  { split; [done |]. split.
    - split; [intros _; left; by eexists | intros _; by eexists].
    - split; [intros [=] | intros [[=] | [=]]]. }
  repeat match goal with
         | g : nat → option Error |- context [match ?h ?n with _ => _ end] =>
             constr_eq g h; destruct (g n) eqn:?; simpl
         end.
  all: split; [reflexivity |].
  all: split;
    [| split;
       [ first [ by intros [=]
               | intros _; first [left; reflexivity | right; reflexivity] ]
       | first [ intros _; reflexivity | intros [[=] | [=]] ] ] ].
  all: split;
    [ first
        [ by intros [? [=]]
        | intros _; right;
          first
            [ exists 0%nat; split; [lia |]; split; [intros j Hj; lia |];
              split; eexists; eassumption
            | exists 1%nat; split; [lia |];
              split; [intros [| j] Hj; first [lia | assumption] |];
              split; eexists; eassumption
            | exists 2%nat; split; [lia |];
              split; [intros [| [| j]] Hj; first [lia | assumption] |];
              split; eexists; eassumption
            | exists 3%nat; split; [lia |];
              split; [intros [| [| [| j]]] Hj; first [lia | assumption] |];
              split; eexists; eassumption ] ]
    | intros [[? [=]] | (k & Hk & Hbefore & [? Hfail] & [? Hroll])];
      first
        [ by eexists
        | exfalso;
          assert (Hcases : (k = 0 ∨ k = 1 ∨ k = 2 ∨ k = 3)%nat) by lia;
          destruct Hcases as [-> | [-> | [-> | ->]]];
          try (pose proof (Hbefore 0%nat ltac:(lia)));
          try (pose proof (Hbefore 1%nat ltac:(lia)));
          try (pose proof (Hbefore 2%nat ltac:(lia)));
          congruence ] ].
Qed.

(** ** Badges stay unique *)

Lemma badge_unique_same_badges db db' :
  (∀ i, badge_id <$> rescuers db' !! i = badge_id <$> rescuers db !! i) →
  badge_unique db → badge_unique db'.
Proof.
  intros Hsame Huniq i j r1 r2 Hi Hj Hb.
  pose proof (Hsame i) as Hi'. pose proof (Hsame j) as Hj'.
  rewrite Hi in Hi'. rewrite Hj in Hj'. simpl in Hi', Hj'.
  destruct (rescuers db !! i) as [r1' |] eqn:Ei; [| done].
  destruct (rescuers db !! j) as [r2' |] eqn:Ej; [| done].
  simpl in Hi', Hj'. apply (Huniq i j r1' r2' Ei Ej). congruence.
Qed.

Lemma alter_same_badge (g : @Rescuer real → Rescuer) id (m : gmap Z Rescuer) i :
  (∀ r, badge_id (g r) = badge_id r) →
  badge_id <$> alter g id m !! i = badge_id <$> m !! i.
Proof.
  intros Hg. destruct (decide (i = id)) as [-> | Hne].
  - rewrite lookup_alter_eq. destruct (m !! id); simpl; by rewrite ?Hg.
  - by rewrite lookup_alter_ne.
Qed.

Lemma badge_unique_status s id db :
  badge_unique db → badge_unique (updateRescuerStatus s id db).
Proof. apply badge_unique_same_badges. intros i. simpl. by apply alter_same_badge. Qed.

Lemma badge_unique_location (lat lon : real) s id db :
  badge_unique db → badge_unique (updateLocation lat lon s id db).
Proof. apply badge_unique_same_badges. intros i. simpl. by apply alter_same_badge. Qed.

Lemma no_conflict_others b id db r0 :
  badge_conflict b id db = false → rescuers db !! id = Some r0 →
  ∀ j r, j ≠ id → rescuers db !! j = Some r → badge_id r ≠ b.
Proof.
  unfold badge_conflict. intros Hc H0 j r Hne Hj Hb. rewrite H0 in Hc.
  assert (Hin : (j, r) ∈ map_to_list (filter (other_with_badge b id) (rescuers db)))
    by (apply elem_of_select; split; [done | by split]).
  destruct (map_to_list (filter (other_with_badge b id) (rescuers db)));
    [by apply not_elem_of_nil in Hin | discriminate].
Qed.

Lemma badge_unique_edit (g : @Rescuer real → Rescuer) b id db :
  (∀ r, badge_id (g r) = b) →
  badge_conflict b id db = false →
  badge_unique db →
  badge_unique {| tickets := tickets db; rescuers := alter g id (rescuers db) |}.
Proof.
  intros Hg Hc Huniq i j r1 r2. simpl.
  destruct (decide (i = id)) as [-> | Hi], (decide (j = id)) as [-> | Hj];
    rewrite ?lookup_alter_eq, ?lookup_alter_ne by done; try done.
  - destruct (rescuers db !! id) as [r0 |] eqn:E0; simpl; [| done].
    intros [= <-] H2 Hb. rewrite Hg in Hb.
    by destruct (no_conflict_others b id db r0 Hc E0 j r2 Hj H2).
  - destruct (rescuers db !! id) as [r0 |] eqn:E0; simpl; [| done].
    intros H1 [= <-] Hb. rewrite Hg in Hb.
    by destruct (no_conflict_others b id db r0 Hc E0 i r1 Hi H1).
  - apply Huniq.
Qed.

Lemma insertable_fresh id b db :
  rescuer_insertable id b db = None →
  rescuers db !! id = None ∧ badge_unknown b db.
Proof.
  unfold rescuer_insertable, badge_taken. intros Hok.
  destruct (rescuers db !! id) eqn:E0; [done |]. split; [done |].
  intros j r Hj Hb.
  assert (Hin : (j, r) ∈ selectByBadge b db) by (by apply elem_of_select).
  destruct (selectByBadge b db); [by apply not_elem_of_nil in Hin | done].
Qed.

Lemma badge_unique_insert id row db :
  badge_unknown (badge_id row) db → badge_unique db →
  badge_unique {| tickets := tickets db; rescuers := <[id := row]> (rescuers db) |}.
Proof.
  intros Hnew Huniq i j r1 r2. simpl.
  destruct (decide (i = id)) as [-> | Hi], (decide (j = id)) as [-> | Hj];
    rewrite ?lookup_insert_eq, ?lookup_insert_ne by done; try done.
  - intros [= <-] H2 Hb. by destruct (Hnew j r2 H2).
  - intros H1 [= <-] Hb. by destruct (Hnew i r1 H1).
  - apply Huniq.
Qed.

(** X3. Every route keeps the badge ids of the rescuers table
    distinct, whatever it is asked and whatever fails: registration,
    update, deletion, login, logout, location report and assignment. *)
Theorem badges_stay_unique db f fault id newId salt n b cs p pw file
    (lat lon : real) ticketId rescuerName :
  badge_unique db →
  badge_unique (RegisterRescuer bcrypt_hash fault newId salt n b cs p pw file db).2 ∧
  badge_unique (tables_after (UpdateRescuer id n b cs p file) f db) ∧
  badge_unique (DeleteRescuer fault id db).2 ∧
  badge_unique (tables_after (Login bcrypt_compare b pw) f db) ∧
  badge_unique (tables_after (Logout id) f db) ∧
  badge_unique (tables_after (ReportLocation id lat lon) f db) ∧
  badge_unique (tables_after (AssignRescuer ticketId id rescuerName) f db).
Proof.
  intros Huniq. repeat split.
  - unfold RegisterRescuer, query. destruct fault; simpl; [done |].
    destruct (rescuer_insertable newId b db) eqn:Hok; simpl; [done |].
    apply insertable_fresh in Hok as [_ Hnew]. by apply badge_unique_insert.
  - destruct (update_outcome f db id n b cs p file) as [(Hc & _ & ->) | [_ ->]];
      [| done].
    destruct file; by apply (badge_unique_edit _ b).
  - unfold DeleteRescuer, query. destruct fault; simpl; [done |].
    intros i j r1 r2. simpl. intros Hi Hj.
    apply lookup_delete_Some in Hi as [_ Hi], Hj as [_ Hj]. by apply Huniq.
  - destruct (login_outcome f db b pw)
      as [(i & r & _ & _ & _ & _ & ->) | [_ ->]]; [| done].
    by apply badge_unique_status.
  - destruct (logout_outcome f db id) as [[_ ->] | (e & _ & ->)]; [| done].
    by apply badge_unique_status.
  - destruct (report_outcome f db id lat lon) as [(s & _ & ->) | (e & _ & ->)]; [| done].
    by apply badge_unique_location.
  - unfold tables_after.
    destruct (assign_all_or_nothing f None db ticketId id rescuerName)
      as [(_ & -> & _) | (_ & -> & _)]; [| done].
    simpl. unfold dispatched_db. by apply badge_unique_status.
Qed.

(** ** Registration *)

Lemma register_fresh db newId salt n b cs p pw file :
  rescuers db !! newId = None → badge_unknown b db →
  RegisterRescuer bcrypt_hash None newId salt n b cs p pw file db
  = (Sent {| account_message := "Account created successfully"; account_id := newId |},
     {| tickets := tickets db;
        rescuers := <[newId := new_rescuer n b cs p (bcrypt_hash salt pw) file]>
                      (rescuers db) |}).
Proof.
  intros Hfree Hnew. unfold RegisterRescuer, query, rescuer_insertable, badge_taken.
  rewrite Hfree. by rewrite (selectByBadge_unknown db b Hnew).
Qed.

(** X4. Registering under a badge nobody holds, with the id the
    sequence hands out, answers "Account created successfully" with
    that id; if the hasher verifies what it hashed, a login with the
    same badge and password then succeeds and returns the new row,
    whose status is available. *)
Theorem register_then_login db newId salt n b cs p pw file :
  badge_unique db →
  rescuers db !! newId = None →
  badge_unknown b db →
  bcrypt_compare pw (bcrypt_hash salt pw) = true →
  let registered := RegisterRescuer bcrypt_hash None newId salt n b cs p pw file db in
  let row := new_rescuer n b cs p (bcrypt_hash salt pw) file in
  registered.1
    = Sent {| account_message := "Account created successfully"; account_id := newId |} ∧
  rescuers registered.2 !! newId = Some row ∧
  r_status row = "available" ∧
  response_to (Login bcrypt_compare b pw) no_faults registered.2
    = Some {| code := 200; body := JsonRescuer newId row |}.
Proof.
  intros Huniq Hfree Hnew Hhash. simpl.
  rewrite (register_fresh db newId salt n b cs p pw file Hfree Hnew). simpl.
  rewrite lookup_insert_eq. repeat split.
  run_handler.
  set (row := new_rescuer n b cs p (bcrypt_hash salt pw) file).
  set (db1 := {| tickets := tickets db; rescuers := <[newId := row]> (rescuers db) |}).
  assert (Hrow : rescuers db1 !! newId = Some row) by apply lookup_insert_eq.
  assert (Huniq1 : badge_unique db1) by (by apply badge_unique_insert).
  pose proof (selectByBadge_unique db1 newId row Hrow Huniq1) as Hsel.
  simpl in Hsel. rewrite Hsel. simpl. by rewrite Hhash.
Qed.

(** X5. Registering under a badge that a rescuer already holds is
    answered 500 "Badge ID exists or Database Error" and leaves the
    tables as they were, whatever id the sequence hands out. *)
Theorem register_badge_taken db fault newId salt n cs p pw file j r :
  rescuers db !! j = Some r →
  RegisterRescuer bcrypt_hash fault newId salt n (badge_id r) cs p pw file db
  = (Failed 500 "Badge ID exists or Database Error", db).
Proof.
  intros Hj. unfold RegisterRescuer, query. destruct fault; [done |].
  unfold rescuer_insertable, badge_taken.
  destruct (rescuers db !! newId); [done |].
  assert (Hin : (j, r) ∈ selectByBadge (badge_id r) db) by (by apply elem_of_select).
  destruct (selectByBadge (badge_id r) db); [by apply not_elem_of_nil in Hin | done].
Qed.

(** ** The dispatcher's lists *)

Lemma elem_of_selectOnDuty db e :
  e ∈ selectOnDuty db ↔
  ∃ id r, rescuers db !! id = Some r ∧ r_status r ≠ "off-duty" ∧ e = listed (id, r).
Proof.
  unfold selectOnDuty. rewrite list_elem_of_fmap. split.
  - intros ([id r] & -> & Hin). apply elem_of_select in Hin as [Hr Hon]. eauto.
  - intros (id & r & Hr & Hon & ->). exists (id, r). split; [done |].
    by apply elem_of_select.
Qed.

Lemma elem_of_selectLocations db e :
  e ∈ selectLocations db ↔
  ∃ id r, rescuers db !! id = Some r ∧ is_Some (last_lat r) ∧
          r_status r ≠ "off-duty" ∧ e = position (id, r).
Proof.
  unfold selectLocations. rewrite list_elem_of_fmap. split.
  - intros ([id r] & -> & Hin). apply elem_of_select in Hin as [Hr [Hlat Hon]].
    exists id, r. auto.
  - intros (id & r & Hr & Hlat & Hon & ->). exists (id, r). split; [done |].
    apply elem_of_select. split; [done | by split].
Qed.

(** X6. After a logout the rescuer is absent from the list of
    GET /api/rescuers; after a login that verifies, it is back in the
    list, with status available. *)
Theorem logout_hides_login_lists db id r pw :
  rescuers db !! id = Some r →
  badge_unique db →
  bcrypt_compare pw (password r) = true →
  let off := tables_after (Logout id) no_faults db in
  let back := tables_after (Login bcrypt_compare (badge_id r) pw) no_faults off in
  ListRescuers None off = (Sent (selectOnDuty off), off) ∧
  (id ∉ l_id <$> selectOnDuty off) ∧
  ListRescuers None back = (Sent (selectOnDuty back), back) ∧
  listed (id, with_status "available" r) ∈ selectOnDuty back.
Proof.
  intros Hr Huniq Hpw off back.
  assert (Hoff : off = updateRescuerStatus "off-duty" id db) by reflexivity.
  clearbody off.
  assert (Hrow : rescuers off !! id = Some (with_status "off-duty" r)).
  { rewrite Hoff. simpl. by rewrite lookup_alter_eq, Hr. }
  assert (Huniq' : badge_unique off) by (rewrite Hoff; by apply badge_unique_status).
  assert (Hback : back = updateRescuerStatus "available" id off).
  { subst back. run_handler.
    pose proof (selectByBadge_unique off id _ Hrow Huniq') as Hsel. simpl in Hsel.
    rewrite Hsel. simpl. by rewrite Hpw. }
  clearbody back.
  repeat split.
  - rewrite list_elem_of_fmap. intros (e & He & Hin).
    apply elem_of_selectOnDuty in Hin as (i & r' & Hi & Hon & ->).
    simpl in He. subst i. rewrite Hrow in Hi. injection Hi as <-. by apply Hon.
  - apply elem_of_selectOnDuty. exists id, (with_status "available" r).
    rewrite Hback. simpl. rewrite lookup_alter_eq, Hrow. by repeat split.
Qed.

(** X7. A rescuer who has just registered is in the list of
    GET /api/rescuers but not in that of GET /api/rescuers/locations;
    after a location report it is in the locations list with the
    reported coordinates. *)
Theorem registered_then_located db newId salt n b cs p pw file (lat lon : real) :
  rescuers db !! newId = None →
  badge_unknown b db →
  let row := new_rescuer n b cs p (bcrypt_hash salt pw) file in
  let db1 := (RegisterRescuer bcrypt_hash None newId salt n b cs p pw file db).2 in
  let db2 := tables_after (ReportLocation newId lat lon) no_faults db1 in
  listed (newId, row) ∈ selectOnDuty db1 ∧
  (newId ∉ p_id <$> selectLocations db1) ∧
  ∃ s, position (newId, located lat lon s row) ∈ selectLocations db2 ∧
       p_last_lat (position (newId, located lat lon s row)) = Some lat ∧
       p_last_lon (position (newId, located lat lon s row)) = Some lon.
Proof.
  intros Hfree Hnew row db1 db2.
  assert (Hdb1 : db1 = {| tickets := tickets db;
                          rescuers := <[newId := row]> (rescuers db) |}).
  { subst db1. by rewrite (register_fresh db newId salt n b cs p pw file Hfree Hnew). }
  clearbody db1.
  assert (Hrow : rescuers db1 !! newId = Some row)
    by (rewrite Hdb1; apply lookup_insert_eq).
  split; [| split].
  - apply elem_of_selectOnDuty. exists newId, row. by repeat split.
  - rewrite list_elem_of_fmap. intros (e & He & Hin).
    apply elem_of_selectLocations in Hin as (i & r' & Hi & [x Hlat] & _ & ->).
    simpl in He. subst i. rewrite Hrow in Hi. injection Hi as <-. done.
  - destruct (report_outcome no_faults db1 newId lat lon)
      as [(s & Hresp & Hdb2) | (e & Hresp & _)]; [| done].
    exists s. split; [| done].
    apply elem_of_selectLocations. exists newId, (located lat lon s row).
    fold db2 in Hdb2. rewrite Hdb2. simpl. rewrite lookup_alter_eq, Hrow.
    repeat split; [by eexists |].
    revert Hresp. run_handler.
    destruct (decide (0 < length (checkMission newId db1))%nat); by intros [= <-].
Qed.

(** ** The dispatch cycle *)

Lemma report_tables db id (lat lon : real) :
  tables_after (ReportLocation id lat lon) no_faults db
  = updateLocation lat lon
      (if decide (0 < length (checkMission id db))%nat then "responding" else "available")
      id db.
Proof. reflexivity. Qed.

Lemma report_tables_on_mission db id (lat lon : real) :
  has_mission id db →
  tables_after (ReportLocation id lat lon) no_faults db
  = updateLocation lat lon "responding" id db.
Proof.
  intros Hm. rewrite report_tables.
  destruct (decide (0 < length (checkMission id db))%nat) as [| Hno]; [done |].
  by rewrite checkMission_nonempty in Hno.
Qed.

Lemma report_tables_idle db id (lat lon : real) :
  ¬ has_mission id db →
  tables_after (ReportLocation id lat lon) no_faults db
  = updateLocation lat lon "available" id db.
Proof.
  intros Hm. rewrite report_tables.
  destruct (decide (0 < length (checkMission id db))%nat) as [Hyes |]; [| done].
  by rewrite checkMission_nonempty in Hyes.
Qed.

(** X8. Through a dispatch cycle of a rescuer who holds no other
    DISPATCHED ticket: the assignment sets on-mission, a location
    report then sets responding, solving the ticket leaves the
    rescuer responding, and only the next location report sets
    available. *)
Theorem dispatch_cycle db ticketId rescuerId rescuerName t r (lat lon : real) :
  tickets db !! ticketId = Some t →
  rescuers db !! rescuerId = Some r →
  (∀ j t', j ≠ ticketId → tickets db !! j = Some t' →
           ¬ (rescuer_id t' = Some rescuerId ∧ t_status t' = "DISPATCHED")) →
  let db1 := tables_after (AssignRescuer ticketId rescuerId rescuerName) no_faults db in
  let db2 := tables_after (ReportLocation rescuerId lat lon) no_faults db1 in
  let db3 := tables_after (SolveTicket ticketId) no_faults db2 in
  let db4 := tables_after (ReportLocation rescuerId lat lon) no_faults db3 in
  r_status <$> rescuers db1 !! rescuerId = Some "on-mission" ∧
  r_status <$> rescuers db2 !! rescuerId = Some "responding" ∧
  t_status <$> tickets db3 !! ticketId = Some "SOLVED" ∧
  r_status <$> rescuers db3 !! rescuerId = Some "responding" ∧
  r_status <$> rescuers db4 !! rescuerId = Some "available".
Proof.
  intros Ht Hr Hothers db1 db2 db3 db4.
  assert (H1 : db1 = dispatched_db ticketId rescuerId rescuerName db) by reflexivity.
  clearbody db1.
  assert (Ht1 : tickets db1 !! ticketId = Some (dispatched rescuerId rescuerName t))
    by (rewrite H1; simpl; by rewrite lookup_alter_eq, Ht).
  assert (Hr1 : rescuers db1 !! rescuerId = Some (with_status "on-mission" r))
    by (rewrite H1; simpl; by rewrite lookup_alter_eq, Hr).
  assert (H2 : db2 = updateLocation lat lon "responding" rescuerId db1).
  { apply report_tables_on_mission. exists ticketId, (dispatched rescuerId rescuerName t).
    by repeat split. }
  clearbody db2.
  assert (Hr2 : rescuers db2 !! rescuerId
                = Some (located lat lon "responding" (with_status "on-mission" r)))
    by (rewrite H2; simpl; by rewrite lookup_alter_eq, Hr1).
  assert (H3 : db3 = updateSolved ticketId db2) by reflexivity.
  clearbody db3.
  assert (Ht3 : ∀ j, tickets db3 !! j
                     = if decide (j = ticketId) then Some (solved (dispatched rescuerId rescuerName t))
                       else tickets db !! j).
  { intros j. rewrite H3, H2, H1. simpl. case_decide as Hj.
    - subst j. by rewrite !lookup_alter_eq, Ht.
    - by rewrite !lookup_alter_ne. }
  assert (Hr3 : rescuers db3 !! rescuerId = rescuers db2 !! rescuerId)
    by (by rewrite H3).
  assert (H4 : db4 = updateLocation lat lon "available" rescuerId db3).
  { apply report_tables_idle. intros (j & t' & Hj & Hid & Hst).
    rewrite Ht3 in Hj. case_decide as Hne.
    - injection Hj as <-. discriminate Hst.
    - by apply (Hothers j t' Hne Hj). }
  clearbody db4.
  repeat split.
  - by rewrite Hr1.
  - by rewrite Hr2.
  - rewrite Ht3. by rewrite decide_True.
  - by rewrite Hr3, Hr2.
  - rewrite H4. simpl. by rewrite lookup_alter_eq, Hr3, Hr2.
Qed.

(** X9. An assignment, whatever fails in it, changes no ticket but
    the one it is given and no rescuer but the one it is given. *)
Theorem assign_touches_two_rows f db ticketId rescuerId rescuerName i j :
  i ≠ ticketId →
  j ≠ rescuerId →
  let db1 := tables_after (AssignRescuer ticketId rescuerId rescuerName) f db in
  tickets db1 !! i = tickets db !! i ∧
  rescuers db1 !! j = rescuers db !! j.
Proof.
  intros Hi Hj. unfold tables_after.
  destruct (assign_all_or_nothing f None db ticketId rescuerId rescuerName)
    as [(_ & -> & _) | (_ & -> & _)]; [| done].
  simpl. split; by rewrite lookup_alter_ne.
Qed.

(** X10. Assigning a ticket that was dispatched to another rescuer
    moves the ticket to the new rescuer and leaves the row of the
    previous rescuer as it was: nothing takes the previous rescuer
    off the mission. *)
Theorem reassignment_keeps_previous_rescuer db ticketId rescuerId rescuerName t previous r :
  tickets db !! ticketId = Some t →
  rescuer_id t = Some previous →
  rescuers db !! previous = Some r →
  previous ≠ rescuerId →
  let db1 := tables_after (AssignRescuer ticketId rescuerId rescuerName) no_faults db in
  rescuer_id <$> tickets db1 !! ticketId = Some (Some rescuerId) ∧
  rescuers db1 !! previous = Some r.
Proof.
  intros Ht _ Hr Hne. simpl.
  rewrite lookup_alter_eq, Ht, lookup_alter_ne by done. by split.
Qed.

(** ** Polling a ticket *)

(** X11. For a ticket whose number no other ticket carries, the status
    route after an assignment answers DISPATCHED with the name given
    in the assignment. *)
Theorem status_after_assign db ticketId rescuerId rescuerName t number :
  tickets db !! ticketId = Some t →
  ticket_number t = Some number →
  (∀ j t', tickets db !! j = Some t' → ticket_number t' = Some number → j = ticketId) →
  let db1 := tables_after (AssignRescuer ticketId rescuerId rescuerName) no_faults db in
  TicketStatus None number db1
  = (Sent {| p_ticket_status := "DISPATCHED"; p_rescuer_name := Some rescuerName |}, db1).
Proof.
  intros Ht Hnum Honly db1.
  assert (H1 : db1 = dispatched_db ticketId rescuerId rescuerName db) by reflexivity.
  clearbody db1.
  unfold TicketStatus, query, selectProgress. simpl.
  rewrite (select_unique (numbered number) (tickets db1) ticketId
             (dispatched rescuerId rescuerName t)); [done | | done |].
  - rewrite H1. simpl. by rewrite lookup_alter_eq, Ht.
  - intros j y Hj Hy. rewrite H1 in Hj. simpl in Hj.
    destruct (decide (j = ticketId)) as [| Hne]; [done |].
    rewrite lookup_alter_ne in Hj by done. by apply (Honly j y).
Qed.

(** X12. Polling a number that no ticket carries is answered 404
    "Ticket not found"; when the SELECT fails the answer is 500 with
    the store's message.  Neither changes the tables. *)
Theorem status_not_found db number e :
  (∀ j t, tickets db !! j = Some t → ticket_number t ≠ Some number) →
  TicketStatus None number db = (Failed 404 "Ticket not found", db) ∧
  TicketStatus (Some e) number db = (Failed 500 (message e), db).
Proof.
  intros Hno. split; [| done].
  unfold TicketStatus, query, selectProgress. simpl.
  rewrite (select_none (numbered number) (tickets db)); [done |].
  intros j y Hj. exact (Hno j y Hj).
Qed.

(** ** Tickets: creating and listing *)

Lemma newest_first_total : Total earlier → Total (newest_first (real:=real) earlier).
Proof. intros Htotal a b. unfold newest_first. apply Htotal. Qed.

Lemma elem_of_selectUnsolved db i t :
  (i, t) ∈ selectUnsolved earlier db ↔ tickets db !! i = Some t ∧ t_status t ≠ "SOLVED".
Proof.
  unfold selectUnsolved. rewrite merge_sort_Permutation. apply elem_of_select.
Qed.

(** X13. GET /api/tickets answers with exactly the tickets whose
    status is not SOLVED, each once, from the most recent created_at
    to the oldest. *)
Theorem list_tickets_unsolved_newest_first db :
  Total earlier →
  ∃ rows,
    ListTickets earlier None db = (Sent rows, db) ∧
    (∀ i t, (i, t) ∈ rows ↔ tickets db !! i = Some t ∧ t_status t ≠ "SOLVED") ∧
    NoDup rows.*1 ∧
    Sorted (newest_first earlier) rows.
Proof.
  intros Htotal. exists (selectUnsolved earlier db). split; [done |]. split; [| split].
  - apply elem_of_selectUnsolved.
  - unfold selectUnsolved. rewrite merge_sort_Permutation.
    apply NoDup_fst_map_to_list.
  - unfold selectUnsolved. apply Sorted_merge_sort. by apply newest_first_total.
Qed.

(** X14. A ticket created under an unused id and a number no ticket
    carries is answered "Ticket saved" with that id; it is ACTIVE with
    no rescuer, the status route answers ACTIVE for its number, and it
    is in the list of GET /api/tickets; the rescuers table is left
    alone. *)
Theorem created_ticket_is_active db newId now number service user phone
    (lat lon : option real) details :
  tickets db !! newId = None →
  (∀ j t, tickets db !! j = Some t → ticket_number t ≠ Some number) →
  let created :=
    CreateTicket None newId now (Some number) service user phone lat lon details db in
  let row := new_ticket (Some number) service user phone lat lon details now in
  created.1 = Sent {| saved_message := "Ticket saved"; saved_id := newId |} ∧
  tickets created.2 !! newId = Some row ∧
  TicketStatus None number created.2
    = (Sent {| p_ticket_status := "ACTIVE"; p_rescuer_name := None |}, created.2) ∧
  (newId, row) ∈ selectUnsolved earlier created.2 ∧
  rescuers created.2 = rescuers db.
Proof.
  intros Hfree Hno created row.
  assert (Hc : created
               = (Sent {| saved_message := "Ticket saved"; saved_id := newId |},
                  {| tickets := <[newId := row]> (tickets db);
                     rescuers := rescuers db |})).
  { subst created. unfold CreateTicket, query, ticket_insertable. by rewrite Hfree. }
  clearbody created. rewrite Hc. simpl.
  assert (Hrow : <[newId := row]> (tickets db) !! newId = Some row)
    by apply lookup_insert_eq.
  repeat split; [done | | ].
  - unfold TicketStatus, query, selectProgress. simpl.
    rewrite (select_unique (numbered number) _ newId row); [done | done | done |].
    intros j y Hj Hy. destruct (decide (j = newId)) as [| Hne]; [done |].
    rewrite lookup_insert_ne in Hj by done. by destruct (Hno j y Hj).
  - by apply elem_of_selectUnsolved.
Qed.

(** X15. A ticket that has been solved is no longer in the list of
    GET /api/tickets, while an assignment keeps it there. *)
Theorem solved_ticket_leaves_list db ticketId rescuerId rescuerName t :
  tickets db !! ticketId = Some t →
  let solved_db := tables_after (SolveTicket ticketId) no_faults db in
  let assigned_db := tables_after (AssignRescuer ticketId rescuerId rescuerName) no_faults db in
  (ticketId ∉ (selectUnsolved earlier solved_db).*1) ∧
  (ticketId, dispatched rescuerId rescuerName t) ∈ selectUnsolved earlier assigned_db.
Proof.
  intros Ht solved_db assigned_db. split.
  - rewrite list_elem_of_fmap. intros ([i t'] & Heq & Hin). simpl in Heq. subst i.
    apply elem_of_selectUnsolved in Hin as [Hi Hst].
    simpl in Hi. rewrite lookup_alter_eq, Ht in Hi. injection Hi as <-. by apply Hst.
  - apply elem_of_selectUnsolved. simpl. by rewrite lookup_alter_eq, Ht.
Qed.

(** ** Chat *)

Lemma oldest_first_total : Total earlier → Total (oldest_first earlier).
Proof. intros Htotal a b. unfold oldest_first. apply Htotal. Qed.

Lemma elem_of_selectMessages number (messages : gmap Z (@Message timestamp)) i m :
  (i, m) ∈ selectMessages earlier number messages
  ↔ messages !! i = Some m ∧ m_ticket_number m = Some number.
Proof.
  unfold selectMessages. rewrite merge_sort_Permutation. apply elem_of_select.
Qed.

(** X16. GET /api/chat/:ticket_number answers with exactly the
    messages stored for that ticket number, each once, from the
    oldest timestamp to the most recent. *)
Theorem chat_list_oldest_first (messages : gmap Z (@Message timestamp)) number :
  Total earlier →
  ∃ rows,
    ChatList earlier None number messages = (Sent rows, messages) ∧
    (∀ i m, (i, m) ∈ rows ↔ messages !! i = Some m ∧ m_ticket_number m = Some number) ∧
    NoDup rows.*1 ∧
    Sorted (oldest_first earlier) rows.
Proof.
  intros Htotal. exists (selectMessages earlier number messages).
  split; [done |]. split; [| split].
  - apply elem_of_selectMessages.
  - unfold selectMessages. rewrite merge_sort_Permutation.
    apply NoDup_fst_map_to_list.
  - unfold selectMessages. apply Sorted_merge_sort. by apply oldest_first_total.
Qed.

(** X17. A message sent under an unused id is answered with success
    and that id; the chat of its ticket number then holds the
    messages it held before and the new one, and the chat of any
    other ticket number is the same as before. *)
Theorem chat_send_then_list (messages : gmap Z (@Message timestamp))
    newId now number from msg other :
  messages !! newId = None →
  other ≠ number →
  let posted := ChatSend None newId now (Some number) from msg messages in
  let row := {| m_ticket_number := Some number; sender := from;
                m_message := msg; m_timestamp := now |} in
  posted.1 = Sent {| posted_success := true; posted_id := newId |} ∧
  selectMessages earlier number posted.2
    ≡ₚ (newId, row) :: selectMessages earlier number messages ∧
  selectMessages earlier other posted.2 = selectMessages earlier other messages.
Proof.
  intros Hfree Hother posted row.
  assert (Hp : posted = (Sent {| posted_success := true; posted_id := newId |},
                         <[newId := row]> messages)).
  { subst posted. unfold ChatSend, query, message_insertable. by rewrite Hfree. }
  clearbody posted. rewrite Hp. simpl. split; [done |]. split.
  - unfold selectMessages. rewrite !merge_sort_Permutation.
    rewrite map_filter_insert_True by done.
    apply map_to_list_insert. apply map_lookup_filter_None. by left.
  - unfold selectMessages. f_equal. f_equal.
    rewrite map_filter_insert_False by (unfold about; simpl; congruence).
    by rewrite delete_id.
Qed.

(** ** Deleting and editing rescuers *)


(** X19. The routes that write rescuers never change the tickets table
    and the routes that write tickets (other than the assignment) never
    change the rescuers table, whatever fails; so editing or renaming a
    rescuer leaves the rescuer name that tickets show. *)
Theorem routes_keep_other_table db f fault id newId salt n b cs p pw file
    (lat lon : real) now number service user phone (tlat tlon : option real) details :
  tickets (RegisterRescuer bcrypt_hash fault newId salt n b cs p pw file db).2 = tickets db ∧
  tickets (tables_after (UpdateRescuer id n b cs p file) f db) = tickets db ∧
  tickets (DeleteRescuer fault id db).2 = tickets db ∧
  tickets (tables_after (Login bcrypt_compare b pw) f db) = tickets db ∧
  tickets (tables_after (Logout id) f db) = tickets db ∧
  tickets (tables_after (ReportLocation id lat lon) f db) = tickets db ∧
  rescuers (tables_after (SolveTicket id) f db) = rescuers db ∧
  rescuers (CreateTicket fault newId now number service user phone tlat tlon details db).2
    = rescuers db.
Proof.
  repeat split.
  - unfold RegisterRescuer, query. destruct fault; [done |].
    by destruct (rescuer_insertable newId b db).
  - destruct (update_outcome f db id n b cs p file) as [(_ & _ & ->) | [_ ->]];
      [by destruct file | done].
  - unfold DeleteRescuer, query. by destruct fault.
  - by destruct (login_outcome f db b pw) as [(i & r & _ & _ & _ & _ & ->) | [_ ->]].
  - by destruct (logout_outcome f db id) as [[_ ->] | (e & _ & ->)].
  - by destruct (report_outcome f db id lat lon) as [(s & _ & ->) | (e & _ & ->)].
  - by destruct (solve_outcome f db id) as [[_ ->] | (e & _ & ->)].
  - unfold CreateTicket, query. destruct fault; [done |].
    by destruct (ticket_insertable newId db).
Qed.

(** X20. A write that names an id no row has is not an error: solve,
    logout, location report and update each answer as on success and
    leave the tables as they were. *)
Theorem writes_to_missing_id_succeed db id (lat lon : real) n b cs p file :
  tickets db !! id = None →
  rescuers db !! id = None →
  response_to (SolveTicket id) no_faults db = Some ticket_solved ∧
  tables_after (SolveTicket id) no_faults db = db ∧
  response_to (Logout id) no_faults db = Some logged_out ∧
  tables_after (Logout id) no_faults db = db ∧
  (∃ s, response_to (ReportLocation id lat lon) no_faults db = Some (location_saved s)) ∧
  tables_after (ReportLocation id lat lon) no_faults db = db ∧
  response_to (UpdateRescuer id n b cs p file) no_faults db = Some updated ∧
  tables_after (UpdateRescuer id n b cs p file) no_faults db = db.
Proof.
  intros Ht Hr.
  assert (Hsame : ∀ (g : @Rescuer real → Rescuer),
             {| tickets := tickets db; rescuers := alter g id (rescuers db) |} = db).
  { intros g. rewrite alter_id' by done. by destruct db. }
  assert (Hsame' : ∀ (g : @Ticket real timestamp → Ticket),
             {| tickets := alter g id (tickets db); rescuers := rescuers db |} = db).
  { intros g. rewrite alter_id' by done. by destruct db. }
  split; [done |]. split; [apply Hsame' |].
  split; [done |]. split; [apply Hsame |].
  split; [eexists; reflexivity |]. split; [rewrite report_tables; apply Hsame |].
  destruct (update_outcome no_faults db id n b cs p file)
    as [(_ & -> & ->) | [Hresp _]].
  - split; [done |]. destruct file; apply Hsame.
  - revert Hresp. run_handler. unfold badge_free, badge_conflict.
    destruct file; simpl; rewrite Hr; discriminate.
Qed.

(** X21. An update that would give the rescuer a badge another rescuer
    holds is answered 500 "Update failed" and changes nothing, with or
    without a new image. *)
Theorem update_to_taken_badge_refused db f id r j r' n cs p file :
  rescuers db !! id = Some r →
  rescuers db !! j = Some r' →
  j ≠ id →
  response_to (UpdateRescuer id n (badge_id r') cs p file) f db = Some update_failed ∧
  tables_after (UpdateRescuer id n (badge_id r') cs p file) f db = db.
Proof.
  intros Hr Hj Hne.
  destruct (update_outcome f db id n (badge_id r') cs p file)
    as [(Hc & _ & _) | [-> ->]]; [| done].
  by destruct (no_conflict_others (badge_id r') id db r Hc Hr j r' Hne Hj).
Qed.

(** X22. After an update that gives the rescuer a new, free badge, a
    login under the new badge with the old password succeeds, and a
    login under the old badge is answered "Auth Failed". *)
Theorem update_badge_then_login db id r n b cs p file pw :
  rescuers db !! id = Some r →
  badge_unique db →
  badge_conflict b id db = false →
  b ≠ badge_id r →
  bcrypt_compare pw (password r) = true →
  let db1 := tables_after (UpdateRescuer id n b cs p file) no_faults db in
  code <$> response_to (Login bcrypt_compare b pw) no_faults db1 = Some 200%nat ∧
  response_to (Login bcrypt_compare (badge_id r) pw) no_faults db1 = Some auth_failed.
Proof.
  intros Hr Huniq Hc Hnew Hpw db1.
  pose (g := λ x : @Rescuer real,
               match file with
               | Some img => edited_with_image n b cs p img x
               | None => edited n b cs p x
               end).
  assert (Hg : ∀ x, badge_id (g x) = b ∧ password (g x) = password x)
    by (intros x; subst g; by destruct file).
  assert (H1 : db1 = {| tickets := tickets db; rescuers := alter g id (rescuers db) |}).
  { subst db1 g.
    rewrite (proj2 (update_applies no_faults db id n b cs p file eq_refl Hc)).
    by destruct file. }
  clearbody db1.
  assert (Hrow : rescuers db1 !! id = Some (g r))
    by (rewrite H1; simpl; by rewrite lookup_alter_eq, Hr).
  assert (Huniq1 : badge_unique db1).
  { rewrite H1. apply (badge_unique_edit g b); [apply Hg | done | done]. }
  split.
  - run_handler. pose proof (selectByBadge_unique db1 id (g r) Hrow Huniq1) as Hsel.
    rewrite (proj1 (Hg r)) in Hsel. rewrite Hsel. simpl.
    by rewrite (proj2 (Hg r)), Hpw.
  - run_handler. rewrite selectByBadge_unknown; [done |].
    intros i x Hi Hb. rewrite H1 in Hi. simpl in Hi.
    destruct (decide (i = id)) as [-> | Hne].
    + rewrite lookup_alter_eq, Hr in Hi. injection Hi as <-.
      rewrite (proj1 (Hg r)) in Hb. by apply Hnew.
    + rewrite lookup_alter_ne in Hi by done. apply Hne.
      by apply (Huniq i id x r).
Qed.

(** X23. The image uploaded at registration is what the image route
    serves for the new id; a registration without a file gets 404. *)
Theorem register_then_get_image db newId salt n b cs p pw file :
  rescuers db !! newId = None →
  badge_unknown b db →
  let db1 := (RegisterRescuer bcrypt_hash None newId salt n b cs p pw file db).2 in
  response_to (GetImage newId) no_faults db1 = Some (image_response file).
Proof.
  intros Hfree Hnew db1. subst db1.
  rewrite (register_fresh db newId salt n b cs p pw file Hfree Hnew).
  run_handler. unfold selectImage. simpl. rewrite lookup_insert_eq. simpl.
  by destruct file.
Qed.

End RouteProperties.

(** ** The route properties on the sample tables *)

Lemma badges_stay_unique_witness :
  badge_unique (RegisterRescuer toy_hash None 8 "salt" "Cy" "B-8" None None "pw" None sample).2 ∧
  badge_unique (tables_after (UpdateRescuer 5 "Cy" "B-8" None None None) no_faults sample) ∧
  badge_unique (DeleteRescuer None 5 sample).2 ∧
  badge_unique (tables_after (Login toy_compare "B-8" "pw") no_faults sample) ∧
  badge_unique (tables_after (Logout 5) no_faults sample) ∧
  badge_unique (tables_after (ReportLocation 5 10 123) no_faults sample) ∧
  badge_unique (tables_after (AssignRescuer 1 5 "Alex") no_faults sample).
Proof.
  apply (badges_stay_unique toy_compare toy_hash sample no_faults None 5 8 "salt"
           "Cy" "B-8" None None "pw" None 10 123 1 "Alex").
  exact sample_badge_unique.
Defined.

(** A property of every row of a sample table, decided by running over
    the table. *)
Ltac by_table :=
  lazymatch goal with
  | |- ∀ j x, ?m !! j = Some x → @?P j x => change (map_Forall P m)
  end;
  apply (bool_decide_unpack _); vm_compute; reflexivity.

Lemma sample_badge_free : badge_unknown "B-8" sample.
Proof.
  apply badge_unknown_badges. apply (bool_decide_unpack _). vm_compute. reflexivity.
Qed.

Lemma register_then_login_witness :
  toy_compare "pw" (toy_hash "salt" "pw") = true ∧
  let registered :=
    RegisterRescuer toy_hash None 8 "salt" "Cy" "B-8" None None "pw" None sample in
  let row := new_rescuer "Cy" "B-8" None None (toy_hash "salt" "pw") None in
  registered.1
    = Sent {| account_message := "Account created successfully"; account_id := 8 |} ∧
  rescuers registered.2 !! 8 = Some row ∧
  r_status row = "available" ∧
  response_to (Login toy_compare "B-8" "pw") no_faults registered.2
    = Some {| code := 200; body := JsonRescuer 8 row |}.
Proof.
  split; [reflexivity |].
  apply (register_then_login toy_compare toy_hash sample 8 "salt" "Cy" "B-8"
           None None "pw" None).
  - exact sample_badge_unique.
  - reflexivity.
  - exact sample_badge_free.
  - reflexivity.
Defined.

Lemma register_badge_taken_witness :
  rescuers sample !! 5 = Some alex ∧
  RegisterRescuer toy_hash None 8 "salt" "Al" (badge_id alex) None None "pw" None sample
  = (Failed 500 "Badge ID exists or Database Error", sample).
Proof.
  split; [reflexivity |].
  apply (register_badge_taken toy_hash sample None 8 "salt" "Al" None None "pw" None 5 alex).
  reflexivity.
Defined.

Lemma logout_hides_login_lists_witness :
  let off := tables_after (Logout 5) no_faults sample in
  let back := tables_after (Login toy_compare (badge_id alex) "secret") no_faults off in
  ListRescuers None off = (Sent (selectOnDuty off), off) ∧
  (5 ∉ l_id <$> selectOnDuty off) ∧
  ListRescuers None back = (Sent (selectOnDuty back), back) ∧
  listed (5, with_status "available" alex) ∈ selectOnDuty back.
Proof.
  apply (logout_hides_login_lists toy_compare sample 5 alex "secret").
  - reflexivity.
  - exact sample_badge_unique.
  - reflexivity.
Defined.

Lemma registered_then_located_witness :
  let row := new_rescuer "Cy" "B-8" None None (toy_hash "salt" "pw") None in
  let db1 := (RegisterRescuer toy_hash None 8 "salt" "Cy" "B-8" None None "pw" None sample).2 in
  let db2 := tables_after (ReportLocation 8 10 123) no_faults db1 in
  listed (8, row) ∈ selectOnDuty db1 ∧
  (8 ∉ p_id <$> selectLocations db1) ∧
  ∃ s, position (8, located 10 123 s row) ∈ selectLocations db2 ∧
       p_last_lat (position (8, located 10 123 s row)) = Some 10 ∧
       p_last_lon (position (8, located 10 123 s row)) = Some 123.
Proof.
  apply (registered_then_located toy_hash sample 8 "salt" "Cy" "B-8" None None "pw" None
           10 123).
  - reflexivity.
  - exact sample_badge_free.
Defined.

Lemma dispatch_cycle_witness :
  let db1 := tables_after (AssignRescuer 1 5 "Alex") no_faults sample in
  let db2 := tables_after (ReportLocation 5 10 123) no_faults db1 in
  let db3 := tables_after (SolveTicket 1) no_faults db2 in
  let db4 := tables_after (ReportLocation 5 10 123) no_faults db3 in
  r_status <$> rescuers db1 !! 5 = Some "on-mission" ∧
  r_status <$> rescuers db2 !! 5 = Some "responding" ∧
  t_status <$> tickets db3 !! 1 = Some "SOLVED" ∧
  r_status <$> rescuers db3 !! 5 = Some "responding" ∧
  r_status <$> rescuers db4 !! 5 = Some "available".
Proof.
  apply (dispatch_cycle sample 1 5 "Alex" sos_001 alex 10 123).
  - reflexivity.
  - reflexivity.
  - intros j t' Hne Hj. revert Hne. revert j t' Hj. by_table.
Defined.

Lemma assign_touches_two_rows_witness :
  let db1 := tables_after (AssignRescuer 1 5 "Alex") (fail_at 3) sample in
  tickets db1 !! 2 = tickets sample !! 2 ∧
  rescuers db1 !! 7 = rescuers sample !! 7.
Proof.
  apply (assign_touches_two_rows (fail_at 3) sample 1 5 "Alex" 2 7); lia.
Defined.

Lemma reassignment_keeps_previous_rescuer_witness :
  rescuer_id sos_002 = Some 7 ∧
  let db1 := tables_after (AssignRescuer 2 5 "Alex") no_faults sample in
  rescuer_id <$> tickets db1 !! 2 = Some (Some 5) ∧
  rescuers db1 !! 7 = Some bea.
Proof.
  split; [reflexivity |].
  apply (reassignment_keeps_previous_rescuer sample 2 5 "Alex" sos_002 7 bea).
  - reflexivity.
  - reflexivity.
  - reflexivity.
  - lia.
Defined.

Lemma status_after_assign_witness :
  let db1 := tables_after (AssignRescuer 1 5 "Alex") no_faults sample in
  TicketStatus None "SOS-001" db1
  = (Sent {| p_ticket_status := "DISPATCHED"; p_rescuer_name := Some "Alex" |}, db1).
Proof.
  apply (status_after_assign sample 1 5 "Alex" sos_001 "SOS-001").
  - reflexivity.
  - reflexivity.
  - by_table.
Defined.

Lemma status_not_found_witness :
  TicketStatus None "SOS-404" sample = (Failed 404 "Ticket not found", sample) ∧
  TicketStatus (Some {| message := "timeout" |}) "SOS-404" sample
  = (Failed 500 "timeout", sample).
Proof.
  apply (status_not_found sample "SOS-404" {| message := "timeout" |}).
  by_table.
Defined.

Lemma list_tickets_unsolved_newest_first_witness :
  ∃ rows,
    ListTickets Z.le None sample = (Sent rows, sample) ∧
    (∀ i t, (i, t) ∈ rows ↔ tickets sample !! i = Some t ∧ t_status t ≠ "SOLVED") ∧
    NoDup rows.*1 ∧
    Sorted (newest_first Z.le) rows.
Proof.
  apply (list_tickets_unsolved_newest_first Z.le sample). apply _.
Defined.

Lemma created_ticket_is_active_witness :
  let created :=
    CreateTicket None 3 110 (Some "SOS-003") (Some "flood") None None
      (Some 10) (Some 123) None sample in
  let row := new_ticket (Some "SOS-003") (Some "flood") None None
               (Some 10) (Some 123) None 110 in
  created.1 = Sent {| saved_message := "Ticket saved"; saved_id := 3 |} ∧
  tickets created.2 !! 3 = Some row ∧
  TicketStatus None "SOS-003" created.2
    = (Sent {| p_ticket_status := "ACTIVE"; p_rescuer_name := None |}, created.2) ∧
  (3, row) ∈ selectUnsolved Z.le created.2 ∧
  rescuers created.2 = rescuers sample.
Proof.
  apply (created_ticket_is_active Z.le sample 3 110 "SOS-003" (Some "flood") None None
           (Some 10) (Some 123) None).
  - reflexivity.
  - by_table.
Defined.

Lemma solved_ticket_leaves_list_witness :
  let solved_db := tables_after (SolveTicket 1) no_faults sample in
  let assigned_db := tables_after (AssignRescuer 1 5 "Alex") no_faults sample in
  (1 ∉ (selectUnsolved Z.le solved_db).*1) ∧
  (1, dispatched 5 "Alex" sos_001) ∈ selectUnsolved Z.le assigned_db.
Proof.
  apply (solved_ticket_leaves_list Z.le sample 1 5 "Alex" sos_001). reflexivity.
Defined.

Lemma chat_list_oldest_first_witness :
  ∃ rows,
    ChatList Z.le None "SOS-001" chat = (Sent rows, chat) ∧
    (∀ i m, (i, m) ∈ rows ↔ chat !! i = Some m ∧ m_ticket_number m = Some "SOS-001") ∧
    NoDup rows.*1 ∧
    Sorted (oldest_first Z.le) rows.
Proof.
  apply (chat_list_oldest_first Z.le chat "SOS-001"). apply _.
Defined.

Lemma chat_send_then_list_witness :
  let posted := ChatSend None 4 120 (Some "SOS-001") (Some "user") (Some "thanks") chat in
  let row := {| m_ticket_number := Some "SOS-001"; sender := Some "user";
                m_message := Some "thanks"; m_timestamp := 120 |} in
  posted.1 = Sent {| posted_success := true; posted_id := 4 |} ∧
  selectMessages Z.le "SOS-001" posted.2
    ≡ₚ (4, row) :: selectMessages Z.le "SOS-001" chat ∧
  selectMessages Z.le "SOS-002" posted.2 = selectMessages Z.le "SOS-002" chat.
Proof.
  apply (chat_send_then_list Z.le chat 4 120 "SOS-001" (Some "user") (Some "thanks")
           "SOS-002").
  - reflexivity.
  - discriminate.
Defined.


Lemma writes_to_missing_id_succeed_witness :
  response_to (SolveTicket 99) no_faults sample = Some ticket_solved ∧
  tables_after (SolveTicket 99) no_faults sample = sample ∧
  response_to (Logout 99) no_faults sample = Some logged_out ∧
  tables_after (Logout 99) no_faults sample = sample ∧
  (∃ s, response_to (ReportLocation 99 10 123) no_faults sample = Some (location_saved s)) ∧
  tables_after (ReportLocation 99 10 123) no_faults sample = sample ∧
  response_to (UpdateRescuer 99 "Zed" "B-99" None None None) no_faults sample
    = Some updated ∧
  tables_after (UpdateRescuer 99 "Zed" "B-99" None None None) no_faults sample = sample.
Proof.
  apply (writes_to_missing_id_succeed sample 99 10 123 "Zed" "B-99" None None None);
    reflexivity.
Defined.

Lemma update_to_taken_badge_refused_witness :
  response_to (UpdateRescuer 5 "Alex" (badge_id bea) None None None) no_faults sample
    = Some update_failed ∧
  tables_after (UpdateRescuer 5 "Alex" (badge_id bea) None None None) no_faults sample
    = sample.
Proof.
  apply (update_to_taken_badge_refused sample no_faults 5 alex 7 bea "Alex" None None None).
  - reflexivity.
  - reflexivity.
  - lia.
Defined.

Lemma update_badge_then_login_witness :
  badge_conflict "B-9" 5 sample = false ∧
  let db1 := tables_after (UpdateRescuer 5 "Alex" "B-9" None None None) no_faults sample in
  code <$> response_to (Login toy_compare "B-9" "secret") no_faults db1 = Some 200%nat ∧
  response_to (Login toy_compare (badge_id alex) "secret") no_faults db1
    = Some auth_failed.
Proof.
  split; [vm_compute; reflexivity |].
  apply (update_badge_then_login toy_compare sample 5 alex "Alex" "B-9" None None None
           "secret").
  - reflexivity.
  - exact sample_badge_unique.
  - vm_compute. reflexivity.
  - discriminate.
  - reflexivity.
Defined.

Lemma register_then_get_image_witness :
  let db1 := (RegisterRescuer toy_hash None 8 "salt" "Cy" "B-8" None None "pw"
                (Some [Byte.xff; Byte.xd8]) sample).2 in
  response_to (GetImage 8) no_faults db1
  = Some (image_response (Some [Byte.xff; Byte.xd8])).
Proof.
  apply (register_then_get_image toy_hash sample 8 "salt" "Cy" "B-8" None None "pw"
           (Some [Byte.xff; Byte.xd8])).
  - reflexivity.
  - exact sample_badge_free.
Defined.

(** ** Runs of the routes on the sample tables *)

Example chat_of_sos_001 :
  (ChatList Z.le None "SOS-001" chat).1
  = Sent [(3, {| m_ticket_number := Some "SOS-001"; sender := Some "dispatcher";
                 m_message := Some "on our way"; m_timestamp := 101 |});
          (1, {| m_ticket_number := Some "SOS-001"; sender := Some "user";
                 m_message := Some "help"; m_timestamp := 105 |})].
Proof. vm_compute. reflexivity. Qed.

Example open_tickets :
  (λ rows, rows.*1) <$> match (ListTickets Z.le None sample).1 with
                        | Sent rows => Some rows
                        | Failed _ _ => None
                        end
  = Some [1].
Proof. vm_compute. reflexivity. Qed.

Example on_duty_after_logout :
  l_id <$> selectOnDuty (tables_after (Logout 5) no_faults sample) = [7].
Proof. vm_compute. reflexivity. Qed.
